(** * hfy2epub: the crawl and discovery engine of [js/hfy2epub.js]

    A shallow embedding of the fetch layer, the response cache, the
    name/URL canonicalizer, the post collector, the two series discovery
    strategies and the batch collector, with the properties of the
    specification stated over it. *)

From Stdlib Require Import ZArith Ascii List Bool Lia.
From stdpp Require Import base option strings list gmap pretty.

(** ** Identity/URL canonicalizer ([nameFromURL], [urlFromName], [unshorten]) *)

Module Canon.

(** Strings are sequences of 8-bit code units.  Both regular expressions of
    [nameFromURL] carry the [i] flag and no [u] flag: a code unit outside
    ASCII never folds onto an ASCII one, so case folding is the ASCII one. *)

Definition is_upper (c : ascii) : bool :=
  let n := nat_of_ascii c in (65 <=? n)%nat && (n <=? 90)%nat.

Definition is_lower (c : ascii) : bool :=
  let n := nat_of_ascii c in (97 <=? n)%nat && (n <=? 122)%nat.

Definition is_digit (c : ascii) : bool :=
  let n := nat_of_ascii c in (48 <=? n)%nat && (n <=? 57)%nat.

(** The character class [[A-Za-z0-9]]. *)
Definition is_alnum (c : ascii) : bool := is_upper c || is_lower c || is_digit c.

Definition lower_char (c : ascii) : ascii :=
  if is_upper c then ascii_of_nat (nat_of_ascii c + 32) else c.

(** [String.prototype.toLowerCase], on the captures of [[A-Za-z0-9]+]. *)
Fixpoint toLowerCase (s : string) : string :=
  match s with
  | EmptyString => EmptyString
  | String c s' => String (lower_char c) (toLowerCase s')
  end.

(** One pattern character against one subject character under the [i] flag. *)
Definition eqb_ci (p c : ascii) : bool := Ascii.eqb (lower_char p) (lower_char c).

(** The literal head of a pattern at the start of [s]; the rest of [s]. *)
Fixpoint match_literal (lit s : string) : option string :=
  match lit with
  | EmptyString => Some s
  | String p lit' =>
      match s with
      | EmptyString => None
      | String c s' => if eqb_ci p c then match_literal lit' s' else None
      end
  end.

(** The greedy group [([A-Za-z0-9]+)]: the longest run at the start of [s].
    Nothing follows the group in either pattern, so no backtracking occurs. *)
Fixpoint take_alnum (s : string) : string :=
  match s with
  | EmptyString => EmptyString
  | String c s' => if is_alnum c then String c (take_alnum s') else EmptyString
  end.

(** A pattern [lit([A-Za-z0-9]+)] anchored at the start of [s]: capture 1. *)
Definition match_here (lit s : string) : option string :=
  match match_literal lit s with
  | Some rest =>
      match take_alnum rest with
      | EmptyString => None
      | cap => Some cap
      end
  | None => None
  end.

(** [s.match(/lit([A-Za-z0-9]+)/i)]: the leftmost match; capture 1, or
    [None] for the [null] of a failed match. *)
Fixpoint regex_search (lit s : string) : option string :=
  match match_here lit s with
  | Some cap => Some cap
  | None =>
      match s with
      | EmptyString => None
      | String _ s' => regex_search lit s'
      end
  end.

(** [/redd\.it\/([A-Za-z0-9]+)/i] and [/r\/HFY\/comments\/([A-Za-z0-9]+)/i]. *)
Definition short_pattern : string := "redd.it/".
Definition long_pattern : string := "r/HFY/comments/".

(** [nameFromURL(url)]; [None] is JavaScript's [undefined]. *)
Definition nameFromURL (url : string) : option string :=
  match regex_search short_pattern url with
  | Some m => Some (toLowerCase m)
  | None =>
      match regex_search long_pattern url with
      | Some m => Some (toLowerCase m)
      | None => None
      end
  end.

(** String concatenation applies [ToString] to its operand: [undefined]
    becomes the nine characters of its name. *)
Definition to_string (name : option string) : string :=
  match name with
  | Some n => n
  | None => "undefined"
  end.

(** [urlFromName(name)]. *)
Definition urlFromName (name : option string) : string :=
  "https://www.reddit.com/r/HFY/comments/" +:+ to_string name +:+ "/".

(** [unshorten(url)]. *)
Definition unshorten (url : string) : string := urlFromName (nameFromURL url).

(** URL forms used to state form equivalence. *)
Definition short_form (tok : string) : string := "https://redd.it/" +:+ tok.

Definition long_form (tok slug : string) : string :=
  "https://www.reddit.com/r/HFY/comments/" +:+ tok +:+ "/" +:+ slug.

(** A non-empty run of the class [[A-Za-z0-9]]. *)
Fixpoint all_chars (p : ascii -> bool) (s : string) : bool :=
  match s with
  | EmptyString => true
  | String c s' => p c && all_chars p s'
  end.

Definition is_token (s : string) : bool :=
  match s with
  | EmptyString => false
  | _ => all_chars is_alnum s
  end.

Definition is_identifier (s : string) : bool :=
  match s with
  | EmptyString => false
  | _ => all_chars (fun c => is_lower c || is_digit c) s
  end.

Definition not_dot (c : ascii) : bool := negb (Ascii.eqb c "."%char).

End Canon.

(** ** JavaScript values, exceptions and property reads *)

Module JS.

(** A parsed JSON payload, and the [undefined] that property reads produce.
    The program does no arithmetic on payload numbers: a number is kept as
    the text [ToString] gives it. *)
#[warnings="-register-all"]
Inductive value :=
| VUndefined
| VNull
| VBool (b : bool)
| VNum (text : string)
| VStr (s : string)
| VArr (elems : list value)
| VObj (fields : gmap string value).

Inductive exn :=
| TypeError (what : string)
| SyntaxError (what : string).

(** The completion of an expression: a value, or an exception thrown. *)
Inductive completion (A : Type) :=
| Normal (a : A)
| Throw (e : exn).
Arguments Normal {A} a.
Arguments Throw {A} e.

Definition bind {A B : Type} (c : completion A) (k : A -> completion B) : completion B :=
  match c with
  | Normal a => k a
  | Throw e => Throw e
  end.

Notation "'let*' x ':=' c 'in' k" := (bind c (fun x => k))
  (at level 10, x name, c at level 100, k at level 200).

(** Property keys: [v[n]] and [v.name] / [v['name']]. *)
Inductive key :=
| Index (n : nat)
| Name (s : string).

Definition key_text (k : key) : string :=
  match k with
  | Index n => pretty n
  | Name s => s
  end.

Definition char_at (s : string) (n : nat) : value :=
  match String.get n s with
  | Some c => VStr (String c EmptyString)
  | None => VUndefined
  end.

(** [v[k]].  Reading a property of [undefined] or [null] throws a TypeError;
    a missing property reads as [undefined].  Of the named properties the
    program reads ([kind], [data], [children], [content_html], [author],
    [title], [name], [selftext_html], [url]) arrays, strings, numbers and
    booleans have none. *)
Definition get (v : value) (k : key) : completion value :=
  match v with
  | VUndefined => Throw (TypeError ("undefined has no property " +:+ key_text k))
  | VNull => Throw (TypeError ("null has no property " +:+ key_text k))
  | VArr elems =>
      Normal match k with
             | Index n => default VUndefined (elems !! n)
             | Name _ => VUndefined
             end
  | VObj fields => Normal (default VUndefined (fields !! key_text k))
  | VStr s =>
      Normal match k with
             | Index n => char_at s n
             | Name _ => VUndefined
             end
  | VBool _ | VNum _ => Normal VUndefined
  end.

(** [ToString] of a value, as [ToPrimitive] computes it for the operands of
    [==]: an array joins its elements with commas, [null] and [undefined]
    elements contributing the empty string; an object answers through the
    inherited [toString], unless the payload gave it a [toString] property
    of its own, which is no function: the conversion then throws. *)
Fixpoint to_primitive_string (v : value) : completion string :=
  match v with
  | VUndefined => Normal "undefined"
  | VNull => Normal "null"
  | VBool true => Normal "true"
  | VBool false => Normal "false"
  | VNum text => Normal text
  | VStr s => Normal s
  | VArr elems =>
      let* texts :=
        (fix join (l : list value) : completion (list string) :=
           match l with
           | [] => Normal []
           | x :: rest =>
               let* text := match x with
                            | VUndefined | VNull => Normal EmptyString
                            | _ => to_primitive_string x
                            end in
               let* texts := join rest in
               Normal (text :: texts)
           end) elems in
      Normal (String.concat "," texts)
  | VObj fields =>
      match fields !! "toString" with
      | Some _ => Throw (TypeError "Cannot convert object to primitive value")
      | None => Normal "[object Object]"
      end
  end.

(** [v == "wikipage"].  A string compares by content, an array or object
    through its primitive string; a number or boolean is compared with
    [ToNumber("wikipage")], which is NaN; [null] and [undefined] equal only
    each other. *)
Definition loose_eq_wikipage (v : value) : completion bool :=
  match v with
  | VStr s => Normal (String.eqb s "wikipage")
  | VArr _ | VObj _ =>
      let* text := to_primitive_string v in
      Normal (String.eqb text "wikipage")
  | VUndefined | VNull | VBool _ | VNum _ => Normal false
  end.

(** Truthiness of a string-or-absent value: only a non-empty string. *)
Definition truthy (s : option string) : bool :=
  match s with
  | Some (String _ _) => true
  | _ => false
  end.

End JS.

(** ** The crawl engine *)

Module Engine.
Import Canon JS.

(** *** Data model *)

(** [{author, title, name, content, url}], as [collectPost] builds it: the
    fields other than [content] are whatever the payload holds. *)
Record post := Post {
  post_author : value;
  post_title : value;
  post_name : value;
  post_content : string;
  post_url : value
}.

(** [{name, url, title}]: a reference to a post not yet fetched. *)
Record part := Part {
  part_name : option string;
  part_url : string;
  part_title : string
}.

(** [{title, author, parts}]. *)
Record series := Series {
  series_title : value;
  series_author : value;
  series_parts : list part
}.

(** The argument of an error handler: the error string of the fetch layer,
    or [{message, part}] from the batch collector. *)
Inductive failure :=
| FetchFailure (message : string)
| PartFailure (message : string) (p : part).

(** What the engine tells its callers, in the order it happens. *)
Inductive notification :=
| FoundUrl (url : string)
| CollectedPost (p : post)
| Error (f : failure)
| Done (posts : list post)
| Log (html level : string)
| Completed (s : series)
| Failed (message : string)
| Resolved (json : value).

(** A handler's answer: [Abort] when it returned exactly [false]. *)
Inductive verdict := Continue | Abort.

(** The callbacks dictionary of [collectPartPosts] and [findSeriesParts];
    [None] is a handler the caller left out. *)
Record callbacks := Callbacks {
  cb_foundUrl : option (string -> verdict);
  cb_collectedPost : option (post -> verdict);
  cb_error : option (failure -> verdict);
  cb_done : option (list post -> verdict)
}.

(** An element of a parsed document: its tag, its [href] attribute
    ([None] when [getAttribute] returns [null]) and its [textContent]. *)
Record element := Element {
  tagName : string;
  href : option string;
  textContent : string
}.

(** The answer of the remote API to one request. *)
Record response := Response {
  latency : nat;
  status : Z;
  statusText : string;
  responseJSON : option value
}.

(** [timeInMsBetweenRequests] is a JavaScript number. *)
Inductive num :=
| Finite (z : Z)
| NaN.

(** The browser, the remote API and the page around the engine:
    - [xhr n url]: the answer to the [n]-th request of the session, a GET of
      [url]; [responseJSON] is [JSON.parse(responseText)], [None] when it
      throws;
    - [he_decode]: [he.decode] on a string;
    - [parseFromString]: [DOMParser.parseFromString(_, "text/html")], the
      elements of the document in document order, tags in lower case;
    - [nextPostRegex]: the pattern in the [#nextPostRegex] input compiled
      with the [i] flag, as a test on a link text; [None] when the text is
      not a regular expression and [new RegExp] throws. *)
Record Env := {
  xhr : nat -> string -> response;
  he_decode : string -> string;
  parseFromString : string -> list element;
  nextPostRegex : option (string -> bool)
}.

(** The globals of the script, the clock, and what has been observed. *)
Record world := World {
  requestRedditJsonCache : gmap string value;
  timeOfLastRealRequest : Z;
  timeInMsBetweenRequests : num;
  clock : Z;
  requests : list (string * Z);
  notifications : list notification
}.

Definition initial (t : Z) : world :=
  World ∅ 0 (Finite 2000) t [] [].

Definition notify (n : notification) (w : world) : world :=
  World (requestRedditJsonCache w) (timeOfLastRealRequest w)
        (timeInMsBetweenRequests w) (clock w) (requests w)
        (notifications w ++ [n]).

Definition cache_set (url : string) (json : value) (w : world) : world :=
  World (<[url := json]> (requestRedditJsonCache w)) (timeOfLastRealRequest w)
        (timeInMsBetweenRequests w) (clock w) (requests w) (notifications w).

(** *** Callback chains *)

(** How a chain of callbacks ends: it ran to its end, an exception escaped
    a callback, or the model's step budget ran out with the crawl going. *)
Inductive outcome :=
| Finished
| Uncaught (e : exn)
| Running.

Definition task := world -> outcome * world.

Definition skip : task := fun w => (Finished, w).

Definition throw (e : exn) : task := fun w => (Uncaught e, w).

Definition emit (n : notification) : task := fun w => (Finished, notify n w).

Definition seq (a b : task) : task :=
  fun w => match a w with
           | (Finished, w') => b w'
           | r => r
           end.

Definition try_ {A : Type} (c : completion A) (k : A -> task) : task :=
  match c with
  | Normal a => k a
  | Throw e => throw e
  end.

Notation "a ;; b" := (seq a b) (at level 100, b at level 200, right associativity).
Notation "'try' x '<-' c ';' k" := (try_ c (fun x => k))
  (at level 10, x name, c at level 100, k at level 200).

(** [if (callbacks.h) { if (callbacks.h(arg) === false) return; }] and on
    with [k].  The call is recorded; the handler is the caller's code and
    only its answer is modelled. *)
Definition call {A : Type} (h : option (A -> verdict)) (n : A -> notification)
    (arg : A) (k : task) : task :=
  match h with
  | None => k
  | Some f =>
      fun w => match f arg with
               | Abort => (Finished, notify (n arg) w)
               | Continue => k (notify (n arg) w)
               end
  end.

Section WithEnv.
Context (E : Env).

(** *** Rate-limited fetch layer *)

(** [Math.max(0, timeOfLastRealRequest + timeInMsBetweenRequests - Date.now())]
    as [setTimeout] takes it: a NaN delay is a delay of 0. *)
Definition timeout_delay (last : Z) (interval : num) (now : Z) : Z :=
  match interval with
  | Finite ms => Z.max 0 (last + ms - now)
  | NaN => 0
  end.

Definition requestDelay (w : world) : Z :=
  timeout_delay (timeOfLastRealRequest w) (timeInMsBetweenRequests w) (clock w).

(** One request from the timer to readyState DONE: the request begins when
    the timer fires, and the readystatechange handler stamps
    [timeOfLastRealRequest] when the answer is complete. *)
Definition exchange (url : string) (w : world) : response * world :=
  let begun := (clock w + requestDelay w)%Z in
  let r := xhr E (length (requests w)) (url +:+ ".json") in
  let finished := (begun + Z.of_nat (latency r))%Z in
  (r, World (requestRedditJsonCache w) finished (timeInMsBetweenRequests w)
            finished (requests w ++ [(url +:+ ".json", begun)])
            (notifications w)).

Definition retrieval_error (url : string) (r : response) : string :=
  "Failed to retrieve url '" +:+ url +:+ "' (" +:+ statusText r +:+ ")".

(** [requestRedditJSON(url, successCallback, errorCallback)]. *)
Definition requestRedditJSON (url : string) (successCallback : value -> task)
    (errorCallback : string -> task) : task :=
  fun w =>
    let '(r, w') := exchange url w in
    if (status r =? 200)%Z then
      match responseJSON r with
      | Some json => successCallback json w'
      | None => throw (SyntaxError "JSON.parse") w'
      end
    else errorCallback (retrieval_error url r) w'.

(** *** Response cache *)

(** [requestRedditJSONCached(url, successCallback, errorCallback)]. *)
Definition requestRedditJSONCached (url : string) (successCallback : value -> task)
    (errorCallback : string -> task) : task :=
  fun w =>
    match requestRedditJsonCache w !! url with
    | Some json => successCallback json w
    | None =>
        requestRedditJSON url
          (fun json => fun w' => successCallback json (cache_set url json w'))
          errorCallback w
    end.

(** [isCached(url)] and [isNameCached(name)]. *)
Definition isCached (url : string) (w : world) : bool :=
  bool_decide (is_Some (requestRedditJsonCache w !! url)).

Definition isNameCached (name : option string) (w : world) : bool :=
  isCached (urlFromName name) w.

(** *** Post collector *)

(** [he.decode(v)]: the library calls [v.replace], which only a string has. *)
Definition he_decode_value (v : value) : completion string :=
  match v with
  | VStr s => Normal (he_decode E s)
  | _ => Throw (TypeError "html.replace is not a function")
  end.

(** The body of the success callback of [collectPost], up to the call of
    [successCallback]: [json[0]['data']['children'][0]['data']], the decoded
    [selftext_html], and the post object. *)
Definition extract_post (json : value) : completion post :=
  let* first := get json (Index 0) in
  let* data := get first (Name "data") in
  let* children := get data (Name "children") in
  let* child := get children (Index 0) in
  let* p := get child (Name "data") in
  let* html := get p (Name "selftext_html") in
  let* content := he_decode_value html in
  let* author := get p (Name "author") in
  let* title := get p (Name "title") in
  let* name := get p (Name "name") in
  let* url := get p (Name "url") in
  Normal (Post author title name content url).

(** [collectPost(url, successCallback, errorCallback)]. *)
Definition collectPost (url : string) (successCallback : post -> task)
    (errorCallback : string -> task) : task :=
  let unshortenedUrl := unshorten url in
  requestRedditJSONCached unshortenedUrl
    (fun json => try collectedPost <- extract_post json; successCallback collectedPost)
    errorCallback.

(** *** Index-page discovery *)

(** [doc.getElementsByTagName(tag)], in document order. *)
Definition getElementsByTagName (doc : list element) (tag : string) : list element :=
  List.filter (fun e => String.eqb (tagName e) tag) doc.

(** The title guess: the first [h1], else the first [h2], else the first
    [h3], else the empty string. *)
Definition guess_title (doc : list element) : string :=
  match getElementsByTagName doc "h1" with
  | h1 :: _ => textContent h1
  | [] =>
      match getElementsByTagName doc "h2" with
      | h2 :: _ => textContent h2
      | [] =>
          match getElementsByTagName doc "h3" with
          | h3 :: _ => textContent h3
          | [] => EmptyString
          end
      end
  end.

(** [nameFromURL(link.getAttribute('href'))]: a link without [href] hands
    [null] to [nameFromURL], whose [url.match] then throws. *)
Definition name_of_link (link : element) : completion (string * option string) :=
  match href link with
  | None => Throw (TypeError "null has no property match")
  | Some h => Normal (h, nameFromURL h)
  end.

(** The loop over the links of the listing; [parts] is the array so far. *)
Fixpoint find_parts (links : list element) (parts : list part) : completion (list part) :=
  match links with
  | [] => Normal parts
  | link :: rest =>
      let* target := name_of_link link in
      if truthy (snd target)
      then find_parts rest (parts ++ [Part (snd target) (fst target) (textContent link)])
      else find_parts rest parts
  end.

(** [collectSeriesInfoFromWikiPage(url, completionCallback, errorCallback)]. *)
Definition collectSeriesInfoFromWikiPage (url : string)
    (completionCallback : series -> task) (errorCallback : string -> task) : task :=
  requestRedditJSONCached url
    (fun json =>
       try kind <- get json (Name "kind");
       try wiki <- loose_eq_wikipage kind;
       (if negb wiki
        then errorCallback (url +:+ " is not a wiki page")
        else skip) ;;
       try data <- get json (Name "data");
       try html <- get data (Name "content_html");
       try indexHtml <- he_decode_value html;
       let doc := parseFromString E indexHtml in
       let title := guess_title doc in
       try parts <- find_parts (getElementsByTagName doc "a") [];
       match parts with
       | first :: _ =>
           collectPost (part_url first)
             (fun post =>
                completionCallback
                  (Series (if String.eqb title "" then post_title post else VStr title)
                          (post_author post) parts))
             errorCallback
       | [] => skip
       end)
    errorCallback.

(** *** Link-following discovery *)

(** [previousNames.includes(name)]. *)
Definition includes (previousNames : list (option string)) (name : option string) : bool :=
  bool_decide (name ∈ previousNames).

(** The loop of [findNextURL] over the links of the post. *)
Fixpoint scan_links (regex : string -> bool) (links : list element)
    (previousNames : list (option string)) : completion (option string) :=
  match links with
  | [] => Normal None
  | link :: rest =>
      if regex (textContent link) then
        let* target := name_of_link link in
        if negb (includes previousNames (snd target))
        then Normal (Some (fst target))
        else scan_links regex rest previousNames
      else scan_links regex rest previousNames
  end.

(** [findNextURL(content, previousNames)]; [None] is [null]. *)
Definition findNextURL (content : string) (previousNames : list (option string))
    : completion (option string) :=
  match nextPostRegex E with
  | None => Throw (SyntaxError "Invalid regular expression")
  | Some regex =>
      scan_links regex (getElementsByTagName (parseFromString E content) "a")
        previousNames
  end.

(** [if (nextUrl)]: the link to follow, when there is one and it is not the
    empty string. *)
Definition followable (nextUrl : option string) : option string :=
  if truthy nextUrl then nextUrl else None.

(** [collectPostRecurse(url)] inside [findSeriesParts], with the two arrays
    of the enclosing call passed along.  The recursion follows the chain of
    posts the remote side serves, which need not end: [fuel] bounds the
    number of posts fetched. *)
Fixpoint collectPostRecurse (fuel : nat) (cbs : callbacks) (url : string)
    (collectedPosts : list post) (previousNames : list (option string)) : task :=
  match fuel with
  | O => fun w => (Running, w)
  | S fuel' =>
      collectPost url
        (fun collectedPost =>
           let collectedPosts' := collectedPosts ++ [collectedPost] in
           call (cb_collectedPost cbs) CollectedPost collectedPost
             (let previousNames' := previousNames ++ [nameFromURL url] in
              try nextUrl <- findNextURL (post_content collectedPost) previousNames';
              match followable nextUrl with
              | Some next =>
                  call (cb_foundUrl cbs) FoundUrl next
                    (collectPostRecurse fuel' cbs next collectedPosts' previousNames')
              | None => call (cb_done cbs) Done collectedPosts' skip
              end))
        (fun error =>
           emit (Log ("Failed at post '" +:+ url +:+ "': undefined") "error") ;;
           call (cb_error cbs) Error (FetchFailure error) skip)
  end.

(** [findSeriesParts(startUrl, callbacks)]. *)
Definition findSeriesParts (fuel : nat) (startUrl : string) (cbs : callbacks) : task :=
  collectPostRecurse fuel cbs startUrl [] [].

(** *** Batch collector *)

(** [post.title = part.title]. *)
Definition with_title (p : post) (title : string) : post :=
  Post (post_author p) (VStr title) (post_name p) (post_content p) (post_url p).

(** [collectPart(i)] inside [collectPartPosts]: [remaining] is [parts] from
    index [i] on, empty when [i >= parts.length]; [posts] is the array so
    far. *)
Fixpoint collectPart (cbs : callbacks) (remaining : list part) (posts : list post) : task :=
  match remaining with
  | [] => call (cb_done cbs) Done posts skip
  | p :: rest =>
      collectPost (part_url p)
        (fun collected =>
           let collected' := with_title collected (part_title p) in
           call (cb_collectedPost cbs) CollectedPost collected'
             (collectPart cbs rest (posts ++ [collected'])))
        (fun error => call (cb_error cbs) Error (PartFailure error p) skip)
  end.

(** [collectPartPosts(parts, callbacks)]. *)
Definition collectPartPosts (parts : list part) (cbs : callbacks) : task :=
  collectPart cbs parts [].

(** *** Vocabulary of the statements *)

(** The answer the remote API gives to the next request of [url]. *)
Definition next_response (url : string) (w : world) : response :=
  xhr E (length (requests w)) (url +:+ ".json").

(** The cached fetch of [url] in world [w] resolves with [json], leaving
    world [w']: from the cache, or from a request answered 200 with a body
    that parses. *)
Definition resolves (url : string) (w : world) (json : value) (w' : world) : Prop :=
  (requestRedditJsonCache w !! url = Some json /\ w' = w) \/
  (requestRedditJsonCache w !! url = None /\
   status (next_response url w) = 200%Z /\
   responseJSON (next_response url w) = Some json /\
   w' = cache_set url json (snd (exchange url w))).

(** The cached fetch of [url] in world [w] fails with [message]: the URL is
    not cached and the request is answered with a status other than 200. *)
Definition rejects (url : string) (w : world) (message : string) (w' : world) : Prop :=
  requestRedditJsonCache w !! url = None /\
  status (next_response url w) <> 200%Z /\
  message = retrieval_error url (next_response url w) /\
  w' = snd (exchange url w).

(** [collectPost(url, ...)] in world [w] hands [p] to its success callback
    in world [w']. *)
Definition collects (url : string) (w : world) (p : post) (w' : world) : Prop :=
  exists json, resolves (unshorten url) w json w' /\ extract_post json = Normal p.

(** The world after the call of an optional handler: the call is recorded
    when the handler is there. *)
Definition observed {A : Type} (h : option (A -> verdict)) (n : A -> notification)
    (arg : A) (w : world) : world :=
  match h with
  | Some _ => notify (n arg) w
  | None => w
  end.

(** A link the scan of [findNextURL] passes over: its text does not match,
    or its target's name is among the previous names. *)
Definition passed_over (regex : string -> bool) (previousNames : list (option string))
    (l : element) : Prop :=
  regex (textContent l) = false \/
  exists h, href l = Some h /\ nameFromURL h ∈ previousNames.

End WithEnv.
End Engine.

(** ** The event loop around the fetch layer *)

Module Timing.
Import Engine.

(** What the event loop has pending: a timer set by [requestRedditJSON], or
    a readystatechange event of a request in flight. *)
Inductive macrotask :=
| TimerFired (url : string)
| ReadyStateChange (url : string) (readyState : nat).

(** The two globals of the fetch layer, the clock, the pending tasks in the
    order they will run, and the times at which requests began and were
    complete. *)
Record loop := Loop {
  now : Z;
  lastRequest : Z;
  interval : num;
  queue : list (Z * macrotask);
  begun : list (string * Z);
  completed : list (string * Z)
}.

(** A task joins the queue behind the tasks due no later than itself. *)
Fixpoint enqueue (due : Z) (t : macrotask) (q : list (Z * macrotask))
    : list (Z * macrotask) :=
  match q with
  | [] => [(due, t)]
  | (d, t') :: q' =>
      if (d <=? due)%Z then (d, t') :: enqueue due t q' else (due, t) :: q
  end.

(** The call [requestRedditJSON(url, ...)] itself: it only sets the timer,
    with the delay computed at the time of the call. *)
Definition requestRedditJSON_call (url : string) (st : loop) : loop :=
  Loop (now st) (lastRequest st) (interval st)
       (enqueue (now st + timeout_delay (lastRequest st) (interval st) (now st))%Z
                (TimerFired url) (queue st))
       (begun st) (completed st).

(** The handler of the [input] event of [#delayBetweenRequests]: it
    multiplies the event object by 1000, which is NaN. *)
Definition delayBetweenRequests_input (st : loop) : loop :=
  Loop (now st) (lastRequest st) NaN (queue st) (begun st) (completed st).

Section WithRemote.
(** [latency url]: the time from [send()] to readyState DONE;
    [follow url]: the URLs the completion callback of [url] requests. *)
Context (latency : string -> nat) (follow : string -> list string).

(** [timeOfLastRealRequest = Date.now()], first line of the handler. *)
Definition stamp (st : loop) : loop :=
  Loop (now st) (now st) (interval st) (queue st) (begun st) (completed st).

(** One task.  The timer callback opens the request, which fires
    readystatechange for OPENED at once, and sends it; the later state
    changes arrive when the answer does.  At DONE the caller's callback runs
    and may call [requestRedditJSON] again. *)
Definition run_task (t : macrotask) (st : loop) : loop :=
  match t with
  | TimerFired url =>
      let st1 := stamp st in
      let done := (now st + Z.of_nat (latency url))%Z in
      Loop (now st1) (lastRequest st1) (interval st1)
           (enqueue done (ReadyStateChange url 4)
              (enqueue done (ReadyStateChange url 3)
                 (enqueue done (ReadyStateChange url 2) (queue st1))))
           (begun st1 ++ [(url, now st)]) (completed st1)
  | ReadyStateChange url readyState =>
      let st1 := stamp st in
      if Nat.eqb readyState 4 then
        fold_left (fun acc next => requestRedditJSON_call next acc) (follow url)
          (Loop (now st1) (lastRequest st1) (interval st1) (queue st1)
                (begun st1) (completed st1 ++ [(url, now st)]))
      else st1
  end.

(** The event loop takes the first pending task when its time has come. *)
Definition step (st : loop) : option loop :=
  match queue st with
  | [] => None
  | (due, t) :: q =>
      Some (run_task t (Loop (Z.max (now st) due) (lastRequest st) (interval st) q
                             (begun st) (completed st)))
  end.

Fixpoint run (fuel : nat) (st : loop) : loop :=
  match fuel with
  | O => st
  | S fuel' =>
      match step st with
      | Some st' => run fuel' st'
      | None => st
      end
  end.

End WithRemote.

(** The spacing C5 asks for: request [second] never begins less than [ms]
    after the completion of request [first]. *)
Definition spaced (ms : Z) (first second : string) (st : loop) : Prop :=
  forall c b, (first, c) ∈ completed st -> (second, b) ∈ begun st -> (c + ms <= b)%Z.

End Timing.

(** ** A session against a small remote site *)

Module Scenario.
Import Canon JS Engine.

Definition obj (fields : list (string * value)) : value := VObj (list_to_map fields).

(** The payload of a post, in the shape the remote API serves it. *)
Definition post_payload (author title name html url : string) : value :=
  VArr [obj [("kind", VStr "Listing");
             ("data", obj [("children",
                VArr [obj [("kind", VStr "t3");
                           ("data", obj [("author", VStr author);
                                         ("title", VStr title);
                                         ("name", VStr name);
                                         ("selftext_html", VStr html);
                                         ("url", VStr url)])]])])];
        obj [("kind", VStr "Listing"); ("data", obj [("children", VArr [])])]].

Definition url_first : string := "https://www.reddit.com/r/HFY/comments/abc123/".
Definition url_second : string := "https://www.reddit.com/r/HFY/comments/def456/".
Definition url_third : string := "https://www.reddit.com/r/HFY/comments/ghi789/".
Definition url_removed : string := "https://www.reddit.com/r/HFY/comments/zzz999/".
Definition url_plain : string := "https://www.reddit.com/r/HFY/wiki/series/plain".
Definition url_other : string := "https://www.reddit.com/r/HFY/wiki/series/other".

Definition body_first : string :=
  "<p>Chapter one.</p><a href='https://redd.it/ABC123'>Next</a>".
Definition body_third : string :=
  "<p>Chapter three.</p><a href='https://example.com/sequel'>Next</a>".
Definition html_plain : string :=
  "<h2>Plain</h2><a href='https://example.com/about'>About</a>".
Definition html_other : string :=
  "<a href='https://redd.it/abc123'>Part 1</a>".

Definition payload_first : value :=
  post_payload "alice" "Chapter one" "t3_abc123" body_first
    "https://www.reddit.com/r/HFY/comments/abc123/chapter_one/".
Definition payload_third : value :=
  post_payload "alice" "Chapter three" "t3_ghi789" body_third
    "https://www.reddit.com/r/HFY/comments/ghi789/chapter_three/".
Definition payload_removed : value :=
  obj [("kind", VStr "Listing"); ("data", obj [("children", VArr [])])].
Definition payload_plain : value :=
  obj [("kind", VStr "wikipage"); ("data", obj [("content_html", VStr html_plain)])].
Definition payload_other : value :=
  obj [("kind", VStr "Listing"); ("data", obj [("content_html", VStr html_other)])].

(** The remote site: three posts, of which the second is unavailable and
    one is served without its first listing entry, and two listings. *)
Definition site (n : nat) (url : string) : response :=
  if String.eqb url (url_first +:+ ".json") then Response 80 200 "OK" (Some payload_first)
  else if String.eqb url (url_third +:+ ".json") then Response 80 200 "OK" (Some payload_third)
  else if String.eqb url (url_removed +:+ ".json") then Response 60 200 "OK" (Some payload_removed)
  else if String.eqb url (url_plain +:+ ".json") then Response 120 200 "OK" (Some payload_plain)
  else if String.eqb url (url_other +:+ ".json") then Response 120 200 "OK" (Some payload_other)
  else if String.eqb url (url_second +:+ ".json") then Response 40 503 "Service Unavailable" None
  else Response 40 404 "Not Found" None.

Definition anchor (target text : string) : element := Element "a" (Some target) text.

(** The documents of the markup above, as the browser parses them. *)
Definition documents (markup : string) : list element :=
  if String.eqb markup body_first then
    [Element "html" None "Chapter one.Next"; Element "head" None "";
     Element "body" None "Chapter one.Next"; Element "p" None "Chapter one.";
     anchor "https://redd.it/ABC123" "Next"]
  else if String.eqb markup body_third then
    [Element "html" None "Chapter three.Next"; Element "head" None "";
     Element "body" None "Chapter three.Next"; Element "p" None "Chapter three.";
     anchor "https://example.com/sequel" "Next"]
  else if String.eqb markup html_plain then
    [Element "html" None "PlainAbout"; Element "head" None "";
     Element "body" None "PlainAbout"; Element "h2" None "Plain";
     anchor "https://example.com/about" "About"]
  else if String.eqb markup html_other then
    [Element "html" None "Part 1"; Element "head" None "";
     Element "body" None "Part 1"; anchor "https://redd.it/abc123" "Part 1"]
  else
    [Element "html" None ""; Element "head" None ""; Element "body" None ""].

(** The pattern [^next$], compiled with the [i] flag.  The payloads above
    carry no character references, which [he.decode] leaves as they are. *)
Definition env : Env := {|
  xhr := site;
  he_decode := fun s => s;
  parseFromString := documents;
  nextPostRegex := Some (fun text => String.eqb (toLowerCase text) "next")
|}.

Definition on_resolved (json : value) : task := emit (Resolved json).
Definition on_collected (p : post) : task := emit (CollectedPost p).
Definition on_completed (s : series) : task := emit (Completed s).
Definition on_failed (message : string) : task := emit (Failed message).

(** Handlers that never ask to stop. *)
Definition observers : callbacks := {|
  cb_foundUrl := Some (fun _ => Continue);
  cb_collectedPost := Some (fun _ => Continue);
  cb_error := Some (fun _ => Continue);
  cb_done := Some (fun _ => Continue)
|}.

Definition post_first : post :=
  Post (VStr "alice") (VStr "Chapter one") (VStr "t3_abc123") body_first
       (VStr "https://www.reddit.com/r/HFY/comments/abc123/chapter_one/").

Definition post_third : post :=
  Post (VStr "alice") (VStr "Chapter three") (VStr "t3_ghi789") body_third
       (VStr "https://www.reddit.com/r/HFY/comments/ghi789/chapter_three/").

Definition start : world := initial 5000.

Definition after_fetch (url : string) (json : value) (w : world) : world :=
  cache_set url json (snd (exchange env url w)).

Definition part_one : part := Part (Some "abc123") "https://redd.it/abc123" "One".
Definition part_two : part := Part (Some "def456") url_second "Two".
Definition part_three : part := Part (Some "ghi789") url_third "Three".

(** A chain of two requests: the completion callback of [a] requests [b]. *)
Definition chain_a_then_b (url : string) : list string :=
  if String.eqb url "a" then ["b"] else [].

End Scenario.

(** ** The parts table of the page *)

Module Page.
Import Canon JS Engine.

(** A [classList]: the class tokens of an element, an ordered set. *)
Definition classList_remove (token : string) (classes : list string) : list string :=
  List.filter (fun c => negb (String.eqb c token)) classes.

Definition classList_contains (token : string) (classes : list string) : bool :=
  existsb (String.eqb token) classes.

Definition classList_add (token : string) (classes : list string) : list string :=
  if classList_contains token classes then classes else classes ++ [token].

(** A row of [#partsrow-table] other than the template: the text of its
    title cell and of its URL cell, the [href] of its link, its classes. *)
Record row := Row {
  row_title : string;
  row_url : string;
  row_link : string;
  row_classes : list string
}.

(** [updateRowState(row, state)]. *)
Definition updateRowState (r : row) (state : string) : row :=
  let cleared :=
    classList_remove "success"
      (classList_remove "warning" (classList_remove "danger" (row_classes r))) in
  Row (row_title r) (row_url r) (row_link r)
      (if String.eqb state "success" then classList_add "success" cleared
       else if String.eqb state "warning" then classList_add "warning" cleared
       else if String.eqb state "danger" then classList_add "danger" cleared
       else cleared).

(** [isNameCached(nameFromURL(url)) ? "success" : "none"]. *)
Definition cached_state (url : string) (w : world) : string :=
  if isNameCached (nameFromURL url) w then "success" else "none".

(** [updateLink] inside [addPartToList]: the row state follows the cache and
    the link follows the URL cell. *)
Definition updateLink (r : row) (w : world) : row :=
  let r' := updateRowState r (cached_state (row_url r) w) in
  Row (row_title r') (row_url r') (row_url r') (row_classes r').

(** [addPartToList(part)].  [template] holds the classes and the link of the
    [.partsrow-template] row of the page, which the new row is cloned from. *)
Definition addPartToList (template : row) (p : part) (w : world)
    (table : list row) : list row :=
  let instance :=
    Row (part_title p) (part_url p) (row_link template)
        (classList_remove "partsrow-template" (row_classes template)) in
  table ++ [updateLink instance w].

(** The [input] listener of a row's URL cell, after the user has changed the
    text of the cell of row [i] to [text]. *)
Definition input_url (i : nat) (text : string) (w : world) (table : list row) : list row :=
  match table !! i with
  | Some r =>
      <[i := updateLink (Row (row_title r) text (row_link r) (row_classes r)) w]> table
  | None => table
  end.

(** The [click] listener of a row's remove button. *)
Definition remove_row (i : nat) (table : list row) : list row := delete i table.

(** [getRowForPart(url)]: the position of the row found, [None] for [null].
    [name == rowName] holds between equal strings and between two
    [undefined]. *)
Fixpoint find_row (name : option string) (rows : list row) (i : nat) : option nat :=
  match rows with
  | [] => None
  | r :: rest =>
      if bool_decide (name = nameFromURL (row_url r)) then Some i
      else find_row name rest (S i)
  end.

Definition getRowForPart (url : string) (table : list row) : option nat :=
  find_row (nameFromURL url) table 0.

(** [addOrUpdatePartInList(part)]. *)
Definition addOrUpdatePartInList (template : row) (p : part) (w : world)
    (table : list row) : list row :=
  match getRowForPart (part_url p) table with
  | None => addPartToList template p w table
  | Some i =>
      match table !! i with
      | Some r =>
          <[i := updateRowState
                   (Row (part_title p) (row_url r) (row_link r) (row_classes r))
                   (cached_state (part_url p) w)]> table
      | None => table
      end
  end.

(** [getPartsFromList()]. *)
Definition getPartsFromList (table : list row) : list part :=
  map (fun r => Part (nameFromURL (row_url r)) (row_url r) (row_title r)) table.

(** [clearPartsFromList()]: every row but the template is removed. *)
Definition clearPartsFromList (table : list row) : list row :=
  fold_left (fun remaining _ => tail remaining) table table.

(** The classes left when the three state classes are removed. *)
Definition cleared (l : list string) : list string :=
  classList_remove "success" (classList_remove "warning" (classList_remove "danger" l)).

(** The three classes [updateRowState] manages. *)
Definition is_state_class (c : string) : bool :=
  String.eqb c "success" || String.eqb c "warning" || String.eqb c "danger".

End Page.

(** ** Vocabulary of further statements *)

Module Vocabulary.
Import Canon JS Engine.

(** The posts announced through the collected handler, in order. *)
Definition collected_of (ns : list notification) : list post :=
  omap (fun n => match n with CollectedPost p => Some p | _ => None end) ns.

(** The lists handed to the done handler, in order. *)
Definition done_of (ns : list notification) : list (list post) :=
  omap (fun n => match n with Done l => Some l | _ => None end) ns.

(** The times at which the logged requests began. *)
Definition begin_times (w : world) : list Z := map snd (requests w).

(** Consecutive times lie at least [ms] apart. *)
Fixpoint gaps_at_least (ms : Z) (times : list Z) : Prop :=
  match times with
  | t1 :: rest =>
      match rest with
      | t2 :: _ => (t1 + ms <= t2)%Z /\ gaps_at_least ms rest
      | [] => True
      end
  | [] => True
  end.

(** The request log of [w] is spaced by [ms], the clock is past the shared
    timestamp, and no logged request began after that timestamp. *)
Definition well_spaced (ms : Z) (w : world) : Prop :=
  timeInMsBetweenRequests w = Finite ms /\
  (timeOfLastRealRequest w <= clock w)%Z /\
  gaps_at_least ms (begin_times w) /\
  Forall (fun t => (t <= timeOfLastRealRequest w)%Z) (begin_times w).

(** [w] is [w0] grown: every cache entry of [w0] is kept, the request log
    and the notifications of [w0] are a prefix of those of [w], the clock
    has not gone back and the interval is the same. *)
Definition grown_from (w0 w : world) : Prop :=
  requestRedditJsonCache w0 ⊆ requestRedditJsonCache w /\
  requests w0 `prefix_of` requests w /\
  notifications w0 `prefix_of` notifications w /\
  (clock w0 <= clock w)%Z /\
  timeInMsBetweenRequests w = timeInMsBetweenRequests w0.

(** A task that keeps a property of the world. *)
Definition preserves (I : world -> Prop) (t : task) : Prop :=
  forall w, I w -> I (snd (t w)).

Section WithEnv.
Context (E : Env).

(** A property of the world that requests, cache stores and notifications
    keep. *)
Definition stable (I : world -> Prop) : Prop :=
  (forall url w, I w -> requestRedditJsonCache w !! url = None ->
                 I (snd (exchange E url w))) /\
  (forall url json w, I w -> requestRedditJsonCache w !! url = None ->
                      I (cache_set url json w)) /\
  (forall n w, I w -> I (notify n w)).

(** The canonical URL of [p] is cached in [w] with a payload that yields
    [collected]. *)
Definition cached_post (w : world) (p : part) (collected : post) : Prop :=
  exists json,
    requestRedditJsonCache w !! unshorten (part_url p) = Some json /\
    extract_post E json = Normal collected.

(** The links of the markup [content], as the browser parses it, target
    only names of [names]. *)
Definition links_within (names : list (option string)) (content : string) : Prop :=
  forall l h,
    l ∈ parseFromString E content -> href l = Some h -> nameFromURL h ∈ names.

(** When the payload [json] yields a post, the links of its content target
    only names of [names]. *)
Definition payload_within (names : list (option string)) (json : value) : Prop :=
  forall p, extract_post E json = Normal p -> links_within names (post_content p).

(** Every payload the remote side answers with, to whichever request and
    for whichever URL, is such a payload. *)
Definition site_within (names : list (option string)) : Prop :=
  forall n url json,
    responseJSON (xhr E n url) = Some json -> payload_within names json.

(** Every payload in the cache of [w] is such a payload. *)
Definition cache_within (names : list (option string)) (w : world) : Prop :=
  forall url json,
    requestRedditJsonCache w !! url = Some json -> payload_within names json.

End WithEnv.

(** [json[0]['data']['children'][0]['data']]: the data of the first listing
    entry, the first line of the success callback of [collectPost]. *)
Definition post_data (json : value) : completion value :=
  let* first := get json (Index 0) in
  let* data := get first (Name "data") in
  let* children := get data (Name "children") in
  let* child := get children (Index 0) in
  get child (Name "data").

(** The URL the engine asks for when a link names no post. *)
Definition undefined_post_url : string :=
  "https://www.reddit.com/r/HFY/comments/undefined/".

(** The post of a part under the part's listing title. *)
Definition titled (p : part) (collected : post) : post :=
  with_title collected (part_title p).

(** The world after the collected handler, when there is one, has been
    called on each of [posts] in turn. *)
Definition announced (cbs : callbacks) (posts : list post) (w : world) : world :=
  fold_left (fun acc p => observed (cb_collectedPost cbs) CollectedPost p acc) posts w.

(** The handler, when there is one, lets the batch go on after each of
    [posts]. *)
Definition goes_on (cbs : callbacks) (posts : list post) : Prop :=
  Forall (fun p => forall f, cb_collectedPost cbs = Some f -> f p = Continue) posts.

(** What the notifications added by a run of [collectPart] look like: the
    posts announced, one call each and in order, and then at most one more
    call, the last: the done call with exactly these posts, when there is
    one for each remaining part, or the error call for the part next in the
    list. *)
Definition batch_report (remaining : list part) (acc : list post) (w : world)
    (r : outcome * world) : Prop :=
  exists posts last,
    notifications (snd r) = notifications w ++ map CollectedPost posts ++ last /\
    (last = [] \/
     (last = [Done (acc ++ posts)] /\ length posts = length remaining) \/
     (exists message p,
         last = [Error (PartFailure message p)] /\
         remaining !! length posts = Some p)) /\
    map post_title posts
    = map (fun p => VStr (part_title p)) (take (length posts) remaining).

(** What the notifications added by a crawl look like: the done handler is
    called at most once, with the posts collected before the run and the
    posts announced in it. *)
Definition crawl_report (acc : list post) (w : world) (r : outcome * world) : Prop :=
  exists added,
    notifications (snd r) = notifications w ++ added /\
    (done_of added = [] \/ done_of added = [acc ++ collected_of added]).

(** The part a link of a listing stands for: a link whose target names a
    post, under that name, with its target and its text. *)
Definition part_of_link (l : element) : option part :=
  match href l with
  | Some h =>
      match nameFromURL h with
      | Some n => Some (Part (Some n) h (textContent l))
      | None => None
      end
  | None => None
  end.

Section Listing.
Context (E : Env).

(** The cached fetch of [url] in [w] resolves, leaving [w1], with a payload
    of kind wikipage whose markup parses to [doc]. *)
Definition serves_listing (url : string) (w w1 : world) (doc : list element) : Prop :=
  exists json kind data html,
    resolves E url w json w1 /\
    get json (Name "kind") = Normal kind /\
    loose_eq_wikipage kind = Normal true /\
    get json (Name "data") = Normal data /\
    get data (Name "content_html") = Normal (VStr html) /\
    doc = parseFromString E (he_decode E html).

End Listing.

(** The pending tasks are in the order of their due times. *)
Fixpoint due_sorted (q : list (Z * Timing.macrotask)) : Prop :=
  match q with
  | [] => True
  | x :: rest => Forall (fun y => (fst x <= fst y)%Z) rest /\ due_sorted rest
  end.

(** The names of the rows of the parts table. *)
Definition row_names (table : list Page.row) : list (option string) :=
  map (fun r => nameFromURL (Page.row_url r)) table.

(** The state of the loop is in order: the queue is ordered, and every task
    that is not in [old] is due no earlier than the clock. *)
Definition in_order (old : list (Z * Timing.macrotask)) (st : Timing.loop) : Prop :=
  due_sorted (Timing.queue st) /\
  forall x, x ∈ Timing.queue st -> x ∈ old \/ (Timing.now st <= fst x)%Z.

End Vocabulary.

(** ** More of the remote site *)

Module Cases.
Import Canon JS Engine Scenario.

Definition url_broken : string := "https://www.reddit.com/r/HFY/comments/brk000/".
Definition url_linkpost : string := "https://www.reddit.com/r/HFY/comments/lnk111/".
Definition url_fourth : string := "https://www.reddit.com/r/HFY/comments/jkl012/".
Definition url_fifth : string := "https://www.reddit.com/r/HFY/comments/mno345/".
Definition url_listing : string := "https://www.reddit.com/r/HFY/wiki/series/demo".
Definition url_lost : string := "https://www.reddit.com/r/HFY/wiki/series/lost".
Definition url_bare : string := "https://www.reddit.com/r/HFY/wiki/series/bare".

Definition body_fourth : string := "<p>Chapter four.</p><a name='next'>Next</a>".
Definition body_fifth : string :=
  "<p>Chapter five.</p><a href='https://redd.it/ghi789'>Next</a>".
Definition html_listing : string :=
  "<h1>Demo</h1><a href='https://redd.it/abc123'>Part 1</a><a href='https://example.com/'>Home</a><a href='https://www.reddit.com/r/HFY/comments/GHI789/chapter_three/'>Part 3</a>".
Definition html_lost : string := "<a href='https://redd.it/def456'>Part 2</a>".
Definition html_bare : string :=
  "<a name='top'>Top</a><a href='https://redd.it/abc123'>Part 1</a>".

(** A link post: the API serves [null] for [selftext_html]. *)
Definition payload_linkpost : value :=
  VArr [obj [("kind", VStr "Listing");
             ("data", obj [("children",
                VArr [obj [("kind", VStr "t3");
                           ("data", obj [("author", VStr "bob");
                                         ("title", VStr "A picture");
                                         ("name", VStr "t3_lnk111");
                                         ("selftext_html", VNull);
                                         ("url", VStr "https://example.com/picture.png")])]])])]].

Definition data_linkpost : value :=
  obj [("author", VStr "bob"); ("title", VStr "A picture"); ("name", VStr "t3_lnk111");
       ("selftext_html", VNull); ("url", VStr "https://example.com/picture.png")].

Definition payload_fourth : value :=
  post_payload "alice" "Chapter four" "t3_jkl012" body_fourth
    "https://www.reddit.com/r/HFY/comments/jkl012/chapter_four/".
Definition payload_fifth : value :=
  post_payload "alice" "Chapter five" "t3_mno345" body_fifth
    "https://www.reddit.com/r/HFY/comments/mno345/chapter_five/".

Definition wikipage (html : string) : value :=
  obj [("kind", VStr "wikipage"); ("data", obj [("content_html", VStr html)])].

(** The site of [Scenario], with a post whose answer is not JSON, a link
    post, two more posts and three listings. *)
Definition site2 (n : nat) (url : string) : response :=
  if String.eqb url (url_broken +:+ ".json") then Response 30 200 "OK" None
  else if String.eqb url (url_linkpost +:+ ".json")
  then Response 30 200 "OK" (Some payload_linkpost)
  else if String.eqb url (url_fourth +:+ ".json")
  then Response 30 200 "OK" (Some payload_fourth)
  else if String.eqb url (url_fifth +:+ ".json")
  then Response 30 200 "OK" (Some payload_fifth)
  else if String.eqb url (url_listing +:+ ".json")
  then Response 90 200 "OK" (Some (wikipage html_listing))
  else if String.eqb url (url_lost +:+ ".json")
  then Response 90 200 "OK" (Some (wikipage html_lost))
  else if String.eqb url (url_bare +:+ ".json")
  then Response 90 200 "OK" (Some (wikipage html_bare))
  else site n url.

Definition listing_links : list element :=
  [anchor "https://redd.it/abc123" "Part 1";
   anchor "https://example.com/" "Home";
   anchor "https://www.reddit.com/r/HFY/comments/GHI789/chapter_three/" "Part 3"].

Definition documents2 (markup : string) : list element :=
  if String.eqb markup body_fourth then
    [Element "html" None "Chapter four.Next"; Element "head" None "";
     Element "body" None "Chapter four.Next"; Element "p" None "Chapter four.";
     Element "a" None "Next"]
  else if String.eqb markup body_fifth then
    [Element "html" None "Chapter five.Next"; Element "head" None "";
     Element "body" None "Chapter five.Next"; Element "p" None "Chapter five.";
     anchor "https://redd.it/ghi789" "Next"]
  else if String.eqb markup html_listing then
    [Element "html" None "DemoPart 1HomePart 3"; Element "head" None "";
     Element "body" None "DemoPart 1HomePart 3"; Element "h1" None "Demo"]
    ++ listing_links
  else if String.eqb markup html_lost then
    [Element "html" None "Part 2"; Element "head" None "";
     Element "body" None "Part 2"; anchor "https://redd.it/def456" "Part 2"]
  else if String.eqb markup html_bare then
    [Element "html" None "TopPart 1"; Element "head" None "";
     Element "body" None "TopPart 1"; Element "a" None "Top";
     anchor "https://redd.it/abc123" "Part 1"]
  else documents markup.

Definition next_pattern (text : string) : bool := String.eqb (toLowerCase text) "next".

Definition env2 : Env := {|
  xhr := site2;
  he_decode := fun s => s;
  parseFromString := documents2;
  nextPostRegex := Some next_pattern
|}.

Definition fetched (url : string) (json : value) (w : world) : world :=
  cache_set url json (snd (exchange env2 url w)).

(** The markup the site serves. *)
Definition served_markup : list string :=
  [body_first; body_third; html_plain; html_other; body_fourth; body_fifth;
   html_listing; html_lost; html_bare].

(** A browser that can show a link to any target: markup the site does not
    serve parses to a document with one link, whose target is the markup. *)
Definition documents3 (markup : string) : list element :=
  if existsb (String.eqb markup) served_markup then documents2 markup
  else [Element "html" None "Next"; Element "head" None "";
        Element "body" None "Next"; anchor markup "Next"].

Definition env3 : Env := {|
  xhr := site2;
  he_decode := fun s => s;
  parseFromString := documents3;
  nextPostRegex := Some next_pattern
|}.

Definition post_fourth : post :=
  Post (VStr "alice") (VStr "Chapter four") (VStr "t3_jkl012") body_fourth
       (VStr "https://www.reddit.com/r/HFY/comments/jkl012/chapter_four/").

Definition post_fifth : post :=
  Post (VStr "alice") (VStr "Chapter five") (VStr "t3_mno345") body_fifth
       (VStr "https://www.reddit.com/r/HFY/comments/mno345/chapter_five/").

(** A session in which the first and the third post have been fetched. *)
Definition warm : world :=
  fetched url_third payload_third (fetched url_first payload_first start).

(** Handlers that stop at the first post, and at the first link found. *)
Definition stop_at_post : callbacks := {|
  cb_foundUrl := Some (fun _ => Continue);
  cb_collectedPost := Some (fun _ => Abort);
  cb_error := Some (fun _ => Continue);
  cb_done := Some (fun _ => Continue)
|}.

Definition stop_at_link : callbacks := {|
  cb_foundUrl := Some (fun _ => Abort);
  cb_collectedPost := Some (fun _ => Continue);
  cb_error := Some (fun _ => Continue);
  cb_done := Some (fun _ => Continue)
|}.

Definition listed_parts : list part :=
  [Part (Some "abc123") "https://redd.it/abc123" "Part 1";
   Part (Some "ghi789") "https://www.reddit.com/r/HFY/comments/GHI789/chapter_three/" "Part 3"].

(** The names the links of the site can have, and the name of a start post. *)
Definition site_names : list (option string) :=
  [Some "abc123"; Some "def456"; Some "ghi789"; None; Some "mno345"].

(** The template row of the page and a table of two rows. *)
Definition template_row : Page.row := Page.Row "" "" "#" ["partsrow-template"; "partsrow"].

Definition two_rows : list Page.row :=
  [Page.Row "One" "https://redd.it/abc123" "https://redd.it/abc123" ["partsrow"; "success"];
   Page.Row "" "" "" ["partsrow"]].

(** The event loop when the answer to request [a] arrives, and after the
    step that handles it. *)
Definition loop_before : Timing.loop :=
  Timing.Loop 5000 5000 (Finite 2000) [(5080%Z, Timing.ReadyStateChange "a" 4)]
    [("a", 5000%Z)] [].

Definition loop_after : Timing.loop :=
  Timing.Loop 5080 5080 (Finite 2000) [(7080%Z, Timing.TimerFired "b")]
    [("a", 5000%Z)] [("a", 5080%Z)].

Definition pending : list (Z * Timing.macrotask) :=
  [(5000%Z, Timing.TimerFired "a"); (5080%Z, Timing.ReadyStateChange "a" 4);
   (6000%Z, Timing.TimerFired "b")].

End Cases.

(** ** Properties of the canonicalizer *)

Module CanonFacts.
Import Canon.

Example name_of_short_link : nameFromURL "https://redd.it/4Ab9Zx" = Some "4ab9zx".
Proof. reflexivity. Qed.

Example name_of_long_link :
  nameFromURL "https://www.reddit.com/r/HFY/comments/ABC123/some_title/" = Some "abc123".
Proof. reflexivity. Qed.

Example name_of_other_forum :
  nameFromURL "https://www.reddit.com/r/other/comments/abc123/" = None.
Proof. reflexivity. Qed.

Example name_needs_a_token : nameFromURL "https://redd.it/" = None.
Proof. reflexivity. Qed.

(** The short pattern is tried first, wherever it matches. *)
Example short_pattern_wins :
  nameFromURL "https://www.reddit.com/r/HFY/comments/abc123/see_redd.it/xyz" = Some "xyz".
Proof. reflexivity. Qed.

Lemma lower_char_alnum c : is_alnum c = true -> is_alnum (lower_char c) = true.
Proof. destruct c as [[] [] [] [] [] [] [] []]; vm_compute; congruence. Qed.

Lemma lower_char_identifier c :
  is_alnum c = true -> (is_lower (lower_char c) || is_digit (lower_char c)) = true.
Proof. destruct c as [[] [] [] [] [] [] [] []]; vm_compute; congruence. Qed.

Lemma lower_char_fixed c :
  (is_lower c || is_digit c) = true -> lower_char c = c.
Proof. destruct c as [[] [] [] [] [] [] [] []]; vm_compute; congruence. Qed.

Lemma identifier_char_alnum c :
  (is_lower c || is_digit c) = true -> is_alnum c = true.
Proof. destruct c as [[] [] [] [] [] [] [] []]; vm_compute; congruence. Qed.

Lemma alnum_not_dot c : is_alnum c = true -> not_dot c = true.
Proof. destruct c as [[] [] [] [] [] [] [] []]; vm_compute; congruence. Qed.

Lemma alnum_not_slash c : is_alnum c = true -> c <> "/"%char.
Proof. destruct c as [[] [] [] [] [] [] [] []]; vm_compute; congruence. Qed.

Lemma all_chars_app p s t :
  all_chars p (s +:+ t) = all_chars p s && all_chars p t.
Proof.
  induction s as [|c s IH]; simpl; [reflexivity|].
  rewrite IH. apply andb_assoc.
Qed.

Lemma all_chars_impl (p q : ascii -> bool) s :
  (forall c, p c = true -> q c = true) ->
  all_chars p s = true -> all_chars q s = true.
Proof.
  intros Hpq. induction s as [|c s IH]; simpl; [reflexivity|].
  intros [Hc Hs]%andb_true_iff. rewrite (Hpq _ Hc), (IH Hs). reflexivity.
Qed.

Lemma toLowerCase_fixed s :
  all_chars (fun c => is_lower c || is_digit c) s = true -> toLowerCase s = s.
Proof.
  induction s as [|c s IH]; simpl; [reflexivity|].
  intros [Hc Hs]%andb_true_iff. rewrite (lower_char_fixed _ Hc), (IH Hs). reflexivity.
Qed.

Lemma toLowerCase_identifier s :
  all_chars is_alnum s = true ->
  all_chars (fun c => is_lower c || is_digit c) (toLowerCase s) = true.
Proof.
  induction s as [|c s IH]; simpl; [reflexivity|].
  intros [Hc Hs]%andb_true_iff.
  rewrite (lower_char_identifier _ Hc), (IH Hs). reflexivity.
Qed.

Lemma is_token_spec s :
  is_token s = true <-> s <> EmptyString /\ all_chars is_alnum s = true.
Proof. destruct s; simpl; intuition congruence. Qed.

Lemma is_identifier_spec s :
  is_identifier s = true <->
  s <> EmptyString /\ all_chars (fun c => is_lower c || is_digit c) s = true.
Proof. destruct s; simpl; intuition congruence. Qed.

Lemma toLowerCase_token s : is_token s = true -> is_identifier (toLowerCase s) = true.
Proof.
  intros [Hne Hall]%is_token_spec. apply is_identifier_spec. split.
  - destruct s; [congruence | discriminate].
  - apply toLowerCase_identifier, Hall.
Qed.

(** The greedy group stops at the first character outside the class. *)
Lemma take_alnum_all s : all_chars is_alnum (take_alnum s) = true.
Proof.
  induction s as [|c s IH]; simpl; [reflexivity|].
  destruct (is_alnum c) eqn:Hc; simpl; [|reflexivity].
  rewrite Hc, IH. reflexivity.
Qed.

Lemma take_alnum_run tok rest :
  all_chars is_alnum tok = true ->
  take_alnum rest = EmptyString ->
  take_alnum (tok +:+ rest) = tok.
Proof.
  intros Htok Hrest. induction tok as [|c tok IH]; simpl in *; [exact Hrest|].
  apply andb_true_iff in Htok as [Hc Htok].
  rewrite Hc, (IH Htok). reflexivity.
Qed.

Lemma match_here_token lit s cap : match_here lit s = Some cap -> is_token cap = true.
Proof.
  unfold match_here. destruct (match_literal lit s) as [rest|]; [|discriminate].
  pose proof (take_alnum_all rest) as Hall.
  destruct (take_alnum rest) as [|c r] eqn:E; [discriminate|].
  intros [= <-]. exact Hall.
Qed.

Lemma regex_search_token lit s cap :
  regex_search lit s = Some cap -> is_token cap = true.
Proof.
  induction s as [|c s IH]; simpl.
  - destruct (match_here lit "") eqn:E; [|discriminate].
    intros [= <-]. eapply match_here_token, E.
  - destruct (match_here lit (String c s)) eqn:E.
    + intros [= <-]. eapply match_here_token, E.
    + exact IH.
Qed.

(** Every name [nameFromURL] yields is a lowercase alphanumeric token. *)
Lemma nameFromURL_identifier url n :
  nameFromURL url = Some n -> is_identifier n = true.
Proof.
  unfold nameFromURL.
  destruct (regex_search short_pattern url) as [m|] eqn:E1.
  - intros [= <-]. eapply toLowerCase_token, regex_search_token, E1.
  - destruct (regex_search long_pattern url) as [m|] eqn:E2; [|discriminate].
    intros [= <-]. eapply toLowerCase_token, regex_search_token, E2.
Qed.

Lemma regex_search_miss lit c s :
  match_here lit (String c s) = None ->
  regex_search lit (String c s) = regex_search lit s.
Proof. intros H. simpl regex_search at 1. rewrite H. reflexivity. Qed.

Lemma regex_search_hit lit s cap :
  match_here lit s = Some cap -> regex_search lit s = Some cap.
Proof. intros H. destruct s; simpl; rewrite H; reflexivity. Qed.

Lemma eqb_ci_dot c : eqb_ci "."%char c = true -> not_dot c = false.
Proof. destruct c as [[] [] [] [] [] [] [] []]; vm_compute; congruence. Qed.

Lemma short_literal_has_dot s rest :
  match_literal short_pattern s = Some rest -> all_chars not_dot s = false.
Proof.
  unfold short_pattern.
  destruct s as [|c0 [|c1 [|c2 [|c3 [|c4 s]]]]]; simpl;
    repeat (match goal with
            | |- (if ?b then _ else _) = Some _ -> _ => destruct b eqn:?
            end);
    try discriminate.
  intros _.
  match goal with Hd : eqb_ci "."%char c4 = true |- _ =>
    rewrite (eqb_ci_dot _ Hd) end.
  rewrite !andb_false_r. reflexivity.
Qed.

(** The short pattern needs a dot: it matches nowhere in a dot-free string. *)
Lemma short_pattern_needs_dot s :
  all_chars not_dot s = true -> regex_search short_pattern s = None.
Proof.
  induction s as [|c s IH]; [reflexivity|].
  intros H. rewrite regex_search_miss.
  - apply IH. simpl in H. apply andb_true_iff in H. tauto.
  - unfold match_here.
    destruct (match_literal short_pattern (String c s)) as [rest|] eqn:E; [|reflexivity].
    apply short_literal_has_dot in E. congruence.
Qed.

Lemma append_cons c s t : String c s +:+ t = String c (s +:+ t).
Proof. reflexivity. Qed.

Lemma append_nil t : EmptyString +:+ t = t.
Proof. reflexivity. Qed.

Ltac unfold_append := rewrite ?append_cons, ?append_nil.
Ltac skip_misses := repeat (rewrite regex_search_miss by reflexivity).


Lemma match_here_capture lit s tok rest :
  match_literal lit s = Some (tok +:+ rest) ->
  is_token tok = true ->
  take_alnum rest = EmptyString ->
  match_here lit s = Some tok.
Proof.
  intros Hlit [Hne Hall]%is_token_spec Hrest. unfold match_here.
  rewrite Hlit, (take_alnum_run _ _ Hall Hrest).
  destruct tok; [congruence | reflexivity].
Qed.

(** The long pattern finds the token that follows the canonical prefix. *)
Lemma long_search_canonical tok rest :
  is_token tok = true ->
  take_alnum rest = EmptyString ->
  regex_search long_pattern
    ("https://www.reddit.com/r/HFY/comments/" +:+ tok +:+ rest) = Some tok.
Proof.
  intros Htok Hrest. unfold_append. skip_misses.
  apply regex_search_hit, (match_here_capture _ _ tok rest); auto.
Qed.

(** The short pattern matches nowhere in a canonical URL without a dot after
    the host. *)
Lemma short_search_canonical tail :
  all_chars not_dot tail = true ->
  regex_search short_pattern ("https://www.reddit.com/r/HFY/comments/" +:+ tail) = None.
Proof.
  intros Htail. unfold_append. skip_misses.
  apply short_pattern_needs_dot. exact Htail.
Qed.


Lemma token_not_dot tok : all_chars is_alnum tok = true -> all_chars not_dot tok = true.
Proof. apply all_chars_impl, alnum_not_dot. Qed.


Lemma nameFromURL_long_form tok slug :
  is_token tok = true ->
  all_chars not_dot slug = true ->
  nameFromURL (long_form tok slug) = Some (toLowerCase tok).
Proof.
  intros Htok Hslug. unfold nameFromURL, long_form.
  rewrite short_search_canonical.
  - rewrite long_search_canonical; auto.
  - apply is_token_spec in Htok as [_ Hall].
    rewrite all_chars_app, (token_not_dot _ Hall). simpl. exact Hslug.
Qed.

(** The canonical URL of an identifier names that identifier. *)
Lemma nameFromURL_urlFromName n :
  is_identifier n = true -> nameFromURL (urlFromName (Some n)) = Some n.
Proof.
  intros Hid. apply is_identifier_spec in Hid as [Hne Hall].
  assert (Htok : is_token n = true).
  { apply is_token_spec. split; [exact Hne|].
    eapply all_chars_impl; [apply identifier_char_alnum | exact Hall]. }
  change (urlFromName (Some n)) with (long_form n "").
  rewrite nameFromURL_long_form by auto.
  rewrite (toLowerCase_fixed _ Hall). reflexivity.
Qed.












(** C4, as the code has it: when no identifier can be extracted from a URL,
    [unshorten] returns the canonical URL built around the text "undefined". *)
Theorem unshorten_without_identifier (url : string) :
  nameFromURL url = None ->
  unshorten url = "https://www.reddit.com/r/HFY/comments/undefined/".
Proof. intros H. unfold unshorten. rewrite H. reflexivity. Qed.

Lemma unshorten_without_identifier_witness :
  nameFromURL "https://example.com/about" = None /\
  unshorten "https://example.com/about"
  = "https://www.reddit.com/r/HFY/comments/undefined/".
Proof.
  split; [reflexivity|].
  apply (unshorten_without_identifier "https://example.com/about"). reflexivity.
Defined.

(** C4, as stated, fails: for a URL without an identifier [unshorten] returns
    a URL string, and that string even names the identifier "undefined". *)
Lemma unshorten_undefined_counterexample :
  nameFromURL "https://example.com/about" = None /\
  unshorten "https://example.com/about"
  = "https://www.reddit.com/r/HFY/comments/undefined/" /\
  nameFromURL (unshorten "https://example.com/about") = Some "undefined".
Proof. repeat split. Qed.



End CanonFacts.

(** ** Properties of the engine *)

Module EngineFacts.
Import Canon JS Engine Vocabulary.

Section WithEnv.
Context (E : Env).

(** *** What a cached fetch does *)

Lemma cached_hit url json w successCallback errorCallback :
  requestRedditJsonCache w !! url = Some json ->
  requestRedditJSONCached E url successCallback errorCallback w = successCallback json w.
Proof. intros H. unfold requestRedditJSONCached. rewrite H. reflexivity. Qed.

Lemma cached_miss url w successCallback errorCallback :
  requestRedditJsonCache w !! url = None ->
  requestRedditJSONCached E url successCallback errorCallback w
  = requestRedditJSON E url
      (fun json w' => successCallback json (cache_set url json w')) errorCallback w.
Proof. intros H. unfold requestRedditJSONCached. rewrite H. reflexivity. Qed.

Lemma request_ok url json w successCallback errorCallback :
  status (next_response E url w) = 200%Z ->
  responseJSON (next_response E url w) = Some json ->
  requestRedditJSON E url successCallback errorCallback w
  = successCallback json (snd (exchange E url w)).
Proof.
  unfold requestRedditJSON, exchange, next_response. cbn [snd].
  intros -> ->. reflexivity.
Qed.

Lemma request_failed url w successCallback errorCallback :
  status (next_response E url w) <> 200%Z ->
  requestRedditJSON E url successCallback errorCallback w
  = errorCallback (retrieval_error url (next_response E url w)) (snd (exchange E url w)).
Proof.
  unfold requestRedditJSON, exchange, next_response. cbn [snd].
  intros H. apply Z.eqb_neq in H. rewrite H. reflexivity.
Qed.

Lemma resolves_spec url w json w' successCallback errorCallback :
  resolves E url w json w' ->
  requestRedditJSONCached E url successCallback errorCallback w = successCallback json w'.
Proof.
  intros [[Hhit ->] | (Hmiss & Hs & Hj & ->)].
  - apply cached_hit, Hhit.
  - rewrite cached_miss by exact Hmiss.
    rewrite (request_ok _ json) by assumption. reflexivity.
Qed.

Lemma rejects_spec url w message w' successCallback errorCallback :
  rejects E url w message w' ->
  requestRedditJSONCached E url successCallback errorCallback w = errorCallback message w'.
Proof.
  intros (Hmiss & Hs & -> & ->).
  rewrite cached_miss by exact Hmiss. apply request_failed, Hs.
Qed.

(** Every request is logged, and the log only grows. *)
Lemma exchange_requests url w :
  requests (snd (exchange E url w))
  = requests w ++ [(url +:+ ".json", (clock w + requestDelay w)%Z)].
Proof. reflexivity. Qed.

Lemma exchange_cache url w :
  requestRedditJsonCache (snd (exchange E url w)) = requestRedditJsonCache w.
Proof. reflexivity. Qed.

Lemma resolves_cached url w json w' :
  resolves E url w json w' -> requestRedditJsonCache w' !! url = Some json.
Proof.
  intros [[Hhit ->] | (_ & _ & _ & ->)]; [exact Hhit|].
  unfold cache_set. cbn. apply lookup_insert_eq.
Qed.

Lemma resolves_requests url w json w' :
  resolves E url w json w' ->
  requests w' = requests w \/
  requests w' = requests w ++ [(url +:+ ".json", (clock w + requestDelay w)%Z)].
Proof.
  intros [[_ ->] | (_ & _ & _ & ->)]; [left | right]; reflexivity.
Qed.

(** An entry of the cache survives every later cached fetch: whatever world
    a later fetch hands to its callbacks still holds the entry. *)
Lemma cache_entry_persists url json url' w successCallback errorCallback
    (Q : outcome * world -> Prop) :
  requestRedditJsonCache w !! url = Some json ->
  (forall j w', requestRedditJsonCache w' !! url = Some json -> Q (successCallback j w')) ->
  (forall m w', requestRedditJsonCache w' !! url = Some json -> Q (errorCallback m w')) ->
  (forall e w', requestRedditJsonCache w' !! url = Some json -> Q (Uncaught e, w')) ->
  Q (requestRedditJSONCached E url' successCallback errorCallback w).
Proof.
  intros Hin Hs He Ht. unfold requestRedditJSONCached.
  destruct (requestRedditJsonCache w !! url') as [j|] eqn:Hurl'.
  - apply Hs, Hin.
  - unfold requestRedditJSON, exchange.
    destruct (status _ =? 200)%Z.
    + destruct (responseJSON _) as [j|].
      * apply Hs. unfold cache_set. cbn.
        rewrite lookup_insert_ne; [exact Hin | congruence].
      * apply Ht. exact Hin.
    + apply He. exact Hin.
Qed.

(** C9: a URL fetched with success is stored under its exact string, and
    from then on a call with that URL makes no request and resolves with the
    stored value, whatever was fetched in between; a failed fetch stores
    nothing, and the next call with the URL issues a request again. *)
Theorem cached_fetch_memoizes (url : string) (w : world) :
  requestRedditJsonCache w !! url = None ->
  let r := next_response E url w in
  let w1 := snd (exchange E url w) in
  (forall json,
      status r = 200%Z -> responseJSON r = Some json ->
      (forall successCallback errorCallback,
          requestRedditJSONCached E url successCallback errorCallback w
          = successCallback json (cache_set url json w1)) /\
      requestRedditJsonCache (cache_set url json w1) !! url = Some json /\
      (forall w2 successCallback errorCallback,
          requestRedditJsonCache w2 !! url = Some json ->
          requestRedditJSONCached E url successCallback errorCallback w2
          = successCallback json w2) /\
      (forall w2 url' successCallback errorCallback (Q : outcome * world -> Prop),
          requestRedditJsonCache w2 !! url = Some json ->
          (forall j w', requestRedditJsonCache w' !! url = Some json ->
                        Q (successCallback j w')) ->
          (forall m w', requestRedditJsonCache w' !! url = Some json ->
                        Q (errorCallback m w')) ->
          (forall e w', requestRedditJsonCache w' !! url = Some json ->
                        Q (Uncaught e, w')) ->
          Q (requestRedditJSONCached E url' successCallback errorCallback w2))) /\
  (status r <> 200%Z ->
      (forall successCallback errorCallback,
          requestRedditJSONCached E url successCallback errorCallback w
          = errorCallback (retrieval_error url r) w1) /\
      requestRedditJsonCache w1 = requestRedditJsonCache w /\
      (forall successCallback errorCallback,
          requestRedditJSONCached E url successCallback errorCallback w1
          = requestRedditJSON E url
              (fun json w' => successCallback json (cache_set url json w'))
              errorCallback w1) /\
      requests (snd (exchange E url w1))
      = requests w ++ [(url +:+ ".json", (clock w + requestDelay w)%Z);
                       (url +:+ ".json", (clock w1 + requestDelay w1)%Z)]).
Proof.
  intros Hmiss r w1. split.
  - intros json Hs Hj. repeat split.
    + intros s e. apply resolves_spec. right. repeat split; assumption.
    + unfold cache_set. cbn. apply lookup_insert_eq.
    + intros w2 s e Hin. apply cached_hit, Hin.
    + intros w2 url' s e Q Hin. apply cache_entry_persists, Hin.
  - intros Hs. repeat split.
    + intros s e. apply rejects_spec. repeat split; assumption.
    + intros s e. apply cached_miss. exact Hmiss.
    + subst w1. rewrite (exchange_requests url (snd (exchange E url w))).
      rewrite (exchange_requests url w), <- app_assoc. reflexivity.
Qed.

(** *** The post collector *)

Lemma collects_spec url w p w' successCallback errorCallback :
  collects E url w p w' ->
  collectPost E url successCallback errorCallback w = successCallback p w'.
Proof.
  intros (json & Hres & Hpost). unfold collectPost.
  rewrite (resolves_spec _ _ _ _ _ _ Hres). rewrite Hpost. reflexivity.
Qed.

Lemma collectPost_rejected url w message w' successCallback errorCallback :
  rejects E (unshorten url) w message w' ->
  collectPost E url successCallback errorCallback w = errorCallback message w'.
Proof. intros H. unfold collectPost. apply rejects_spec, H. Qed.

(** C1, as the code has it: when the payload fetched for a post cannot be
    destructured, the exception of the failed property read escapes the
    success callback; neither the success callback nor the error callback of
    [collectPost] is called. *)
Theorem collectPost_malformed_payload_escapes (url : string) (w w' : world)
    (json : value) (e : exn) :
  resolves E (unshorten url) w json w' ->
  extract_post E json = Throw e ->
  forall successCallback errorCallback,
    collectPost E url successCallback errorCallback w = (Uncaught e, w').
Proof.
  intros Hres Hbad s err. unfold collectPost.
  rewrite (resolves_spec _ _ _ _ _ _ Hres). rewrite Hbad. reflexivity.
Qed.

(** *** Handlers *)

Lemma call_continue {A : Type} (h : option (A -> verdict)) n (arg : A) k w :
  (forall f, h = Some f -> f arg = Continue) ->
  call h n arg k w = k (observed h n arg w).
Proof.
  intros H. unfold call, observed. destruct h as [f|]; [|reflexivity].
  rewrite (H f eq_refl). reflexivity.
Qed.

Lemma call_last {A : Type} (f : A -> verdict) n (arg : A) w :
  call (Some f) n arg skip w = (Finished, notify (n arg) w).
Proof. unfold call, skip. destruct (f arg); reflexivity. Qed.

(** *** Index-page discovery *)

Lemma find_parts_unnamed links parts :
  (forall l, l ∈ links -> exists h, href l = Some h /\ nameFromURL h = None) ->
  find_parts links parts = Normal parts.
Proof.
  induction links as [|l links IH]; intros H; [reflexivity|].
  destruct (H l) as (h & Hh & Hn); [left|].
  cbn [find_parts]. unfold name_of_link. rewrite Hh. cbn. rewrite Hn. cbn.
  apply IH. intros l' Hl'. apply H. right. exact Hl'.
Qed.

(** C2, as the code has it: on a listing page none of whose links yields an
    identifier, index-page discovery ends after the listing is fetched
    without calling its completion callback or its error callback, and
    without a fetch for an author. *)
Theorem wiki_page_without_parts_calls_nothing (url : string) (w w1 : world)
    (json kind data : value) (html : string) :
  resolves E url w json w1 ->
  get json (Name "kind") = Normal kind ->
  loose_eq_wikipage kind = Normal true ->
  get json (Name "data") = Normal data ->
  get data (Name "content_html") = Normal (VStr html) ->
  (forall l, l ∈ getElementsByTagName (parseFromString E (he_decode E html)) "a" ->
             exists h, href l = Some h /\ nameFromURL h = None) ->
  (forall completionCallback errorCallback,
      collectSeriesInfoFromWikiPage E url completionCallback errorCallback w
      = (Finished, w1)) /\
  (requests w1 = requests w \/
   requests w1 = requests w ++ [(url +:+ ".json", (clock w + requestDelay w)%Z)]).
Proof.
  intros Hres Hkind Hwiki Hdata Hhtml Hlinks. split.
  - intros completion err. unfold collectSeriesInfoFromWikiPage.
    rewrite (resolves_spec _ _ _ _ _ _ Hres).
    rewrite Hkind. cbn [try_]. rewrite Hwiki. cbn [try_ negb].
    unfold seq, skip. rewrite Hdata. cbn [try_]. rewrite Hhtml. cbn [try_ he_decode_value].
    rewrite (find_parts_unnamed _ _ Hlinks). reflexivity.
  - eapply resolves_requests, Hres.
Qed.

(** *** Link-following discovery *)

Lemma includes_elem previousNames name :
  includes previousNames name = true <-> name ∈ previousNames.
Proof. unfold includes. apply bool_decide_eq_true. Qed.

Lemma scan_links_passed_over regex before rest previousNames :
  Forall (passed_over regex previousNames) before ->
  scan_links regex (before ++ rest) previousNames = scan_links regex rest previousNames.
Proof.
  induction 1 as [|l before Hl _ IH]; [reflexivity|].
  cbn [app scan_links]. destruct Hl as [Hno | (h & Hh & Hin)].
  - rewrite Hno. exact IH.
  - destruct (regex (textContent l)); [|exact IH].
    unfold name_of_link. rewrite Hh. cbn.
    apply includes_elem in Hin. rewrite Hin. cbn. exact IH.
Qed.

Lemma scan_links_exhausted regex links previousNames :
  Forall (passed_over regex previousNames) links ->
  scan_links regex links previousNames = Normal None.
Proof.
  intros H. rewrite <- (app_nil_r links).
  rewrite scan_links_passed_over by exact H. reflexivity.
Qed.

(** C10: a link whose text matches the pattern and whose target has no
    derivable identifier is returned by [findNextURL] when the scan reaches
    it, provided [undefined] is not among the previous names. *)
Theorem findNextURL_returns_unnamed_link (content : string)
    (previousNames : list (option string)) (regex : string -> bool)
    (before after : list element) (link : element) (target : string) :
  nextPostRegex E = Some regex ->
  None ∉ previousNames ->
  getElementsByTagName (parseFromString E content) "a" = before ++ link :: after ->
  Forall (passed_over regex previousNames) before ->
  regex (textContent link) = true ->
  href link = Some target ->
  nameFromURL target = None ->
  findNextURL E content previousNames = Normal (Some target).
Proof.
  intros Hre Hundef Hlinks Hbefore Hmatch Hhref Hname.
  unfold findNextURL. rewrite Hre, Hlinks.
  rewrite scan_links_passed_over by exact Hbefore.
  cbn [scan_links]. rewrite Hmatch. unfold name_of_link. rewrite Hhref. cbn.
  rewrite Hname.
  destruct (includes previousNames None) eqn:Hinc; [|reflexivity].
  apply includes_elem in Hinc. contradiction.
Qed.

(** C7: when every link of the collected post whose text matches the pattern
    targets a name already visited, [findNextURL] returns no link and the
    crawl step ends, for any step budget, with the call of the done handler
    on the posts collected so far; nothing more is fetched. *)
Theorem visited_links_end_the_crawl (fuel : nat) (cbs : callbacks) (url : string)
    (collectedPosts : list post) (previousNames : list (option string))
    (w w1 : world) (p : post) (regex : string -> bool)
    (done : list post -> verdict) :
  collects E url w p w1 ->
  (forall f, cb_collectedPost cbs = Some f -> f p = Continue) ->
  cb_done cbs = Some done ->
  nextPostRegex E = Some regex ->
  (forall l, l ∈ getElementsByTagName (parseFromString E (post_content p)) "a" ->
             regex (textContent l) = true ->
             exists h, href l = Some h /\
                       nameFromURL h ∈ previousNames ++ [nameFromURL url]) ->
  findNextURL E (post_content p) (previousNames ++ [nameFromURL url]) = Normal None /\
  collectPostRecurse E (S fuel) cbs url collectedPosts previousNames w
  = (Finished,
     notify (Done (collectedPosts ++ [p]))
       (observed (cb_collectedPost cbs) CollectedPost p w1)).
Proof.
  intros Hcol Hgo Hdone Hre Hlinks.
  assert (Hnone : findNextURL E (post_content p) (previousNames ++ [nameFromURL url])
                  = Normal None).
  { unfold findNextURL. rewrite Hre. apply scan_links_exhausted.
    apply Forall_forall. intros l Hl.
    destruct (regex (textContent l)) eqn:Hm; [right | left; exact Hm].
    apply (Hlinks l Hl Hm). }
  split; [exact Hnone|].
  cbn [collectPostRecurse]. rewrite (collects_spec _ _ _ _ _ _ Hcol).
  rewrite call_continue by exact Hgo.
  rewrite Hnone. cbn [try_ followable truthy]. rewrite Hdone. apply call_last.
Qed.

(** *** The crawl on a finite site *)

(** Every way a cached fetch can go on, as a rule for a property [Q] of the
    outcome. *)
Lemma requestRedditJSONCached_cases url successCallback errorCallback w
    (Q : outcome * world -> Prop) :
  (forall json w', Q (successCallback json w')) ->
  (forall message w', Q (errorCallback message w')) ->
  (forall e w', Q (Uncaught e, w')) ->
  Q (requestRedditJSONCached E url successCallback errorCallback w).
Proof.
  intros Hs He Ht. unfold requestRedditJSONCached.
  destruct (requestRedditJsonCache w !! url) as [json|]; [apply Hs|].
  unfold requestRedditJSON. destruct (exchange E url w) as [r w'].
  destruct (status r =? 200)%Z; [|apply He].
  destruct (responseJSON r); [apply Hs | apply Ht].
Qed.

Lemma collectPost_cases url successCallback errorCallback w
    (Q : outcome * world -> Prop) :
  (forall p w', Q (successCallback p w')) ->
  (forall message w', Q (errorCallback message w')) ->
  (forall e w', Q (Uncaught e, w')) ->
  Q (collectPost E url successCallback errorCallback w).
Proof.
  intros Hs He Ht. unfold collectPost. apply requestRedditJSONCached_cases; auto.
  intros json w'. destruct (extract_post E json); [apply Hs | apply Ht].
Qed.

Lemma call_cases {A : Type} (h : option (A -> verdict)) n (arg : A) k w
    (Q : outcome * world -> Prop) :
  (forall w', Q (Finished, w')) ->
  (forall w', Q (k w')) ->
  Q (call h n arg k w).
Proof.
  intros Hf Hk. unfold call. destruct h as [f|]; [|apply Hk].
  destruct (f arg); [apply Hk | apply Hf].
Qed.

(** The link [findNextURL] returns is a link of the post whose name is not
    among the previous names. *)
Lemma scan_links_found regex links previousNames next :
  scan_links regex links previousNames = Normal (Some next) ->
  (exists l, l ∈ links /\ href l = Some next) /\ nameFromURL next ∉ previousNames.
Proof.
  induction links as [|l links IH]; [discriminate|].
  cbn [scan_links].
  assert (Hrest : scan_links regex links previousNames = Normal (Some next) ->
                  (exists l', l' ∈ l :: links /\ href l' = Some next) /\
                  nameFromURL next ∉ previousNames).
  { intros H. destruct (IH H) as [(l' & Hl' & Hh) Hn].
    split; [exists l'; split; [right|]; assumption | exact Hn]. }
  destruct (regex (textContent l)); [|exact Hrest].
  unfold name_of_link. destruct (href l) as [h|] eqn:Hh; [|discriminate]. cbn.
  destruct (includes previousNames (nameFromURL h)) eqn:Hinc; cbn; [exact Hrest|].
  intros [= <-]. split.
  - exists l. split; [left | exact Hh].
  - intros Hin. apply includes_elem in Hin. congruence.
Qed.

Lemma getElementsByTagName_elem doc tag l :
  l ∈ getElementsByTagName doc tag -> l ∈ doc.
Proof.
  unfold getElementsByTagName. rewrite !list_elem_of_In, filter_In. tauto.
Qed.

(** Every way [collectPost] can go on when the payloads of the site and of
    the cache link only to names of [names]: the cache stays such a cache,
    and a collected post links only to these names. *)
Lemma collectPost_within_cases names url successCallback errorCallback w
    (Q : outcome * world -> Prop) :
  site_within E names ->
  cache_within E names w ->
  (forall p w', cache_within E names w' -> links_within E names (post_content p) ->
                Q (successCallback p w')) ->
  (forall message w', cache_within E names w' -> Q (errorCallback message w')) ->
  (forall e w', cache_within E names w' -> Q (Uncaught e, w')) ->
  Q (collectPost E url successCallback errorCallback w).
Proof.
  intros Hsite Hcache Hs He Ht. unfold collectPost, requestRedditJSONCached.
  destruct (requestRedditJsonCache w !! unshorten url) as [json|] eqn:Hhit.
  - destruct (extract_post E json) as [p|e] eqn:Hp; cbn [try_].
    + apply Hs; [exact Hcache | exact (Hcache _ _ Hhit p Hp)].
    + apply Ht, Hcache.
  - unfold requestRedditJSON, exchange. cbv zeta.
    set (r := xhr E (length (requests w)) (unshorten url +:+ ".json")).
    set (w1 := World _ _ _ _ _ _).
    assert (Hw1 : cache_within E names w1) by exact Hcache.
    destruct (status r =? 200)%Z; [|apply He, Hw1].
    destruct (responseJSON r) as [json|] eqn:Hj; [|apply Ht, Hw1].
    assert (Hjson : payload_within E names json) by exact (Hsite _ _ _ Hj).
    assert (Hw2 : cache_within E names (cache_set (unshorten url) json w1)).
    { intros u j Hu. cbn in Hu.
      destruct (decide (unshorten url = u)) as [<-|Hne].
      - rewrite lookup_insert_eq in Hu. injection Hu as <-. exact Hjson.
      - rewrite lookup_insert_ne in Hu by exact Hne. exact (Hcache _ _ Hu). }
    destruct (extract_post E json) as [p|e] eqn:Hp; cbn [try_].
    + apply Hs; [exact Hw2 | exact (Hjson p Hp)].
    + apply Ht, Hw2.
Qed.

Lemma cache_within_notify names n w :
  cache_within E names w -> cache_within E names (notify n w).
Proof. intros H. exact H. Qed.

(** The rule of [call] for a property of the world that notifications keep. *)
Lemma call_kept_cases {A : Type} (J : world -> Prop) (h : option (A -> verdict)) n
    (arg : A) k w (Q : outcome * world -> Prop) :
  (forall m w', J w' -> J (notify m w')) ->
  J w ->
  (forall w', J w' -> Q (Finished, w')) ->
  (forall w', J w' -> Q (k w')) ->
  Q (call h n arg k w).
Proof.
  intros Hn Hw Hf Hk. unfold call. destruct h as [f|]; [|apply Hk, Hw].
  destruct (f arg); [apply Hk | apply Hf]; apply Hn, Hw.
Qed.

(** The crawl visits no name twice.  On a site whose posts link to finitely
    many names it therefore ends: a step budget of the number of names is
    never used up, whatever the remote side answers. *)
Lemma crawl_ends_on_finite_site (names : list (option string)) :
  site_within E names ->
  forall fuel cbs url collectedPosts previousNames w,
    cache_within E names w ->
    NoDup previousNames ->
    previousNames ⊆ names ->
    nameFromURL url ∈ names ->
    nameFromURL url ∉ previousNames ->
    length names <= fuel + length previousNames ->
    fst (collectPostRecurse E fuel cbs url collectedPosts previousNames w) <> Running.
Proof.
  intros Hsite fuel. induction fuel as [|fuel IH];
    intros cbs url posts prev w Hcache Hnodup Hsub Hin Hnew Hlen.
  - exfalso.
    assert (Hnd : NoDup (nameFromURL url :: prev)) by (constructor; assumption).
    assert (Hs : nameFromURL url :: prev ⊆ names).
    { intros x Hx. apply list_elem_of_In in Hx. destruct Hx as [<- | Hx]; [exact Hin|].
      apply Hsub, list_elem_of_In, Hx. }
    pose proof (submseteq_length _ _ (NoDup_submseteq _ _ Hnd Hs)) as Hle.
    cbn in Hle. lia.
  - cbn [collectPostRecurse].
    apply (collectPost_within_cases names); [exact Hsite | exact Hcache | | |].
    + intros p w' Hw' Hlinks.
      apply (call_kept_cases (cache_within E names));
        [intros; assumption | exact Hw' | intros; cbn; discriminate|].
      intros w'' Hw''. cbv zeta.
      destruct (findNextURL E (post_content p) (prev ++ [nameFromURL url]))
        as [nextUrl|e] eqn:Hnext; cbn [try_]; [|cbn; discriminate].
      destruct (followable nextUrl) as [next|] eqn:Hfol.
      * assert (nextUrl = Some next) as ->.
        { unfold followable in Hfol. destruct (truthy nextUrl); congruence. }
        unfold findNextURL in Hnext.
        destruct (nextPostRegex E) as [regex|]; [|discriminate].
        apply scan_links_found in Hnext as [(l & Hl & Hh) Hfresh].
        apply getElementsByTagName_elem in Hl.
        apply (call_kept_cases (cache_within E names));
          [intros; assumption | exact Hw'' | intros; cbn; discriminate|].
        intros w3 Hw3. apply IH.
        -- exact Hw3.
        -- apply NoDup_app. repeat split; [exact Hnodup | | apply NoDup_singleton].
           intros x Hx Hx'. apply list_elem_of_singleton in Hx'. congruence.
        -- intros x Hx. apply elem_of_app in Hx as [Hx | Hx]; [apply Hsub, Hx|].
           apply list_elem_of_singleton in Hx. congruence.
        -- exact (Hlinks l next Hl Hh).
        -- exact Hfresh.
        -- rewrite length_app. cbn. lia.
      * apply call_cases; intros; cbn; discriminate.
    + intros message w' _. unfold seq, emit.
      apply call_cases; intros; cbn; discriminate.
    + intros; cbn; discriminate.
Qed.

(** *** Batch collector *)

(** C6: over three parts, when the first is collected and the fetch of the
    second fails, the collected handler is called once, for part 1 under its
    listing title, the error handler is called once with the message and
    part 2, and the run ends there: the only request after part 1 is the one
    for part 2, whatever part 3 is. *)
Theorem collectPartPosts_aborts_on_failure (p1 p2 p3 : part) (cbs : callbacks)
    (onCollected : post -> verdict) (onError : failure -> verdict)
    (w w1 w2 : world) (post1 : post) (message : string) :
  cb_collectedPost cbs = Some onCollected ->
  cb_error cbs = Some onError ->
  collects E (part_url p1) w post1 w1 ->
  onCollected (with_title post1 (part_title p1)) = Continue ->
  rejects E (unshorten (part_url p2))
    (notify (CollectedPost (with_title post1 (part_title p1))) w1) message w2 ->
  collectPartPosts E [p1; p2; p3] cbs w
  = (Finished, notify (Error (PartFailure message p2)) w2) /\
  notifications (notify (Error (PartFailure message p2)) w2)
  = notifications w1 ++ [CollectedPost (with_title post1 (part_title p1));
                         Error (PartFailure message p2)] /\
  map fst (requests (notify (Error (PartFailure message p2)) w2))
  = map fst (requests w1) ++ [unshorten (part_url p2) +:+ ".json"].
Proof.
  intros Hc He Hcol Hgo Hrej.
  assert (Hw2 : w2 = snd (exchange E (unshorten (part_url p2))
                   (notify (CollectedPost (with_title post1 (part_title p1))) w1))).
  { destruct Hrej as (_ & _ & _ & ->). reflexivity. }
  repeat split.
  - unfold collectPartPosts. cbn [collectPart].
    rewrite (collects_spec _ _ _ _ _ _ Hcol).
    rewrite Hc. unfold call at 1. rewrite Hgo.
    rewrite (collectPost_rejected _ _ _ _ _ _ Hrej).
    rewrite He. apply call_last.
  - rewrite Hw2. cbn. rewrite <- app_assoc. reflexivity.
  - rewrite Hw2. cbn. rewrite map_app. reflexivity.
Qed.

End WithEnv.
End EngineFacts.

(** ** Properties of the fetch layer's timing *)

Module TimingFacts.
Import Engine Timing Scenario.

Lemma timeout_delay_nonneg last interval now : (0 <= timeout_delay last interval now)%Z.
Proof. destruct interval; simpl; lia. Qed.

(** In an idle loop the request begins exactly when the timer is due, as
    [Engine.exchange] has it. *)
Lemma timer_fires_when_due latency follow url st :
  queue st = [] ->
  exists st',
    step latency follow (requestRedditJSON_call url st) = Some st' /\
    begun st'
    = begun st ++ [(url, (now st + timeout_delay (lastRequest st) (interval st) (now st))%Z)].
Proof.
  intros Hq. destruct st as [t last iv q bg cp]. simpl in *. subst q.
  eexists. split; [reflexivity|]. simpl.
  pose proof (timeout_delay_nonneg last iv t).
  rewrite Z.max_r by lia. reflexivity.
Qed.

(** A request issued in an idle loop whose callback requests nothing runs as
    [Engine.exchange] has it: it begins when the timer is due, is complete
    one latency later, and the completion time is the shared timestamp. *)
Lemma request_in_idle_loop latency follow url st :
  queue st = [] ->
  follow url = [] ->
  let b := (now st + timeout_delay (lastRequest st) (interval st) (now st))%Z in
  let c := (b + Z.of_nat (latency url))%Z in
  let final := run latency follow 4 (requestRedditJSON_call url st) in
  begun final = begun st ++ [(url, b)] /\
  completed final = completed st ++ [(url, c)] /\
  lastRequest final = c /\
  now final = c /\
  queue final = [].
Proof.
  intros Hq Hfollow. destruct st as [t last iv q bg cp]. cbn [queue] in Hq. subst q.
  cbn [now lastRequest interval begun completed].
  pose proof (timeout_delay_nonneg last iv t) as Hd.
  cbv zeta. unfold requestRedditJSON_call.
  repeat (progress (cbn [run step queue enqueue now lastRequest interval begun completed
                         run_task stamp Nat.eqb fold_left];
                    rewrite ?Z.leb_refl, ?Hfollow)).
  repeat split; try rewrite <- app_assoc; repeat f_equal; lia.
Qed.

Lemma enqueue_has due t q : (due, t) ∈ enqueue due t q.
Proof.
  induction q as [|[d t'] q IH]; cbn [enqueue]; [left|].
  destruct (d <=? due)%Z; [right; exact IH | left].
Qed.

Lemma enqueue_keeps x due t q : x ∈ q -> x ∈ enqueue due t q.
Proof.
  induction q as [|[d t'] q IH]; cbn [enqueue]; intros Hx; [inversion Hx|].
  destruct (d <=? due)%Z; [|right; exact Hx].
  apply elem_of_cons in Hx as [-> | Hx]; [left | right; apply IH, Hx].
Qed.

(** The calls a completion callback makes at time [c], just after the
    handler has stamped [c]: each sets a timer due [c + max(0, ms)]. *)
Lemma calls_after_completion ms c urls s :
  interval s = Finite ms -> now s = c -> lastRequest s = c ->
  let s' := fold_left (fun acc next => requestRedditJSON_call next acc) urls s in
  (forall u, u ∈ urls -> ((c + Z.max 0 ms)%Z, TimerFired u) ∈ queue s') /\
  (forall x, x ∈ queue s -> x ∈ queue s') /\
  completed s' = completed s /\ lastRequest s' = c.
Proof.
  revert s. induction urls as [|u urls IH]; intros s Hi Hn Hl; cbn [fold_left].
  - repeat split; auto. intros u Hu. inversion Hu.
  - destruct (IH (requestRedditJSON_call u s)) as (Hin & Hkeep & Hc & Hlast);
      [exact Hi | exact Hn | exact Hl|].
    repeat split; auto.
    + intros u' Hu'. apply elem_of_cons in Hu' as [-> | Hu']; [|apply Hin, Hu'].
      apply Hkeep. cbn [requestRedditJSON_call queue]. rewrite Hi, Hn, Hl.
      cbn [timeout_delay]. replace (c + ms - c)%Z with ms by lia. apply enqueue_has.
    + intros x Hx. apply Hkeep. cbn [requestRedditJSON_call queue].
      apply enqueue_keeps, Hx.
Qed.

Lemma timer_begins_when_due latency follow s s' d url q :
  queue s = (d, TimerFired url) :: q ->
  step latency follow s = Some s' ->
  exists b, begun s' = begun s ++ [(url, b)] /\ (d <= b)%Z.
Proof.
  intros Hq Hstep. unfold step in Hstep. rewrite Hq in Hstep. injection Hstep as <-.
  exists (Z.max (now s) d). split; [reflexivity | lia].
Qed.

Lemma calls_keep_pending urls s x :
  x ∈ queue s ->
  x ∈ queue (fold_left (fun acc next => requestRedditJSON_call next acc) urls s).
Proof.
  revert s. induction urls as [|u urls IH]; intros s Hx; cbn [fold_left]; [exact Hx|].
  apply IH. cbn [requestRedditJSON_call queue]. apply enqueue_keeps, Hx.
Qed.

Lemma step_keeps_pending latency follow s s' x y q :
  queue s = x :: q -> y ∈ q ->
  step latency follow s = Some s' ->
  y ∈ queue s'.
Proof.
  intros Hq Hy Hstep. unfold step in Hstep. rewrite Hq in Hstep.
  destruct x as [d t]. injection Hstep as <-.
  destruct t as [url | url rs]; cbn [run_task stamp queue].
  - cbn [queue]. do 3 apply enqueue_keeps. exact Hy.
  - destruct (Nat.eqb rs 4); [|exact Hy].
    apply calls_keep_pending. exact Hy.
Qed.

(** C5, as the code has it: while the interval is a number, every call sets
    one timer, due [max(0, timeOfLastRealRequest + interval - now)] after
    the call, computed at the time of the call; a timer stays pending until
    it is the task that runs, and its request begins then, no earlier than
    the timer is due.  A call issued from the completion callback of a
    request therefore begins its own request no earlier than the interval
    after the completion timestamp of that request, whatever else is
    pending. *)
Theorem chained_request_waits_interval (latency : string -> nat)
    (follow : string -> list string) (st : loop) (first : string)
    (due ms : Z) (q : list (Z * macrotask)) :
  interval st = Finite ms ->
  queue st = (due, ReadyStateChange first 4) :: q ->
  (forall s url,
      interval s = Finite ms ->
      requestRedditJSON_call url s
      = Loop (now s) (lastRequest s) (interval s)
             (enqueue (now s + Z.max 0 (lastRequest s + ms - now s))%Z
                      (TimerFired url) (queue s))
             (begun s) (completed s)) /\
  (forall s s' d url q',
      queue s = (d, TimerFired url) :: q' ->
      step latency follow s = Some s' ->
      exists b, begun s' = begun s ++ [(url, b)] /\ (d <= b)%Z) /\
  (forall s s' x y q',
      queue s = x :: q' -> y ∈ q' ->
      step latency follow s = Some s' ->
      y ∈ queue s') /\
  exists st1 c,
    step latency follow st = Some st1 /\
    completed st1 = completed st ++ [(first, c)] /\
    lastRequest st1 = c /\
    forall second,
      second ∈ follow first ->
      ((c + Z.max 0 ms)%Z, TimerFired second) ∈ queue st1 /\
      forall s s' q',
        queue s = ((c + Z.max 0 ms)%Z, TimerFired second) :: q' ->
        step latency follow s = Some s' ->
        exists b, begun s' = begun s ++ [(second, b)] /\ (c + ms <= b)%Z.
Proof.
  intros Hiv Hq. split; [|split; [|split]].
  - intros s url Hs. unfold requestRedditJSON_call. rewrite Hs. reflexivity.
  - apply timer_begins_when_due.
  - apply step_keeps_pending.
  - destruct st as [t last iv q0 bg cp]. cbn [interval queue] in Hiv, Hq. subst iv q0.
    unfold step. cbn [queue run_task Nat.eqb stamp now lastRequest interval begun completed].
    match goal with |- context [fold_left ?f ?l ?s] =>
      destruct (calls_after_completion ms (Z.max t due) l s) as (Hin & _ & Hc & Hlast)
    end; try reflexivity.
    eexists _, (Z.max t due). split; [reflexivity|].
    split; [exact Hc|]. split; [exact Hlast|].
    intros second Hsecond. split; [apply Hin, Hsecond|].
    intros s s' q' Hs Hstep.
    destruct (timer_begins_when_due _ _ _ _ _ _ _ Hs Hstep) as (b & Hb & Hle).
    exists b. split; [exact Hb | lia].
Qed.

Lemma chained_request_waits_interval_witness :
  exists st1 c,
    step (fun _ => 80%nat) chain_a_then_b
      (Loop 5000 5000 (Finite 2000)
            [(5080%Z, ReadyStateChange "a" 4); (5090%Z, TimerFired "z")]
            [("a", 5000%Z)] [])
    = Some st1 /\
    completed st1 = [] ++ [("a", c)] /\
    lastRequest st1 = c /\
    ((c + Z.max 0 2000)%Z, TimerFired "b") ∈ queue st1.
Proof.
  destruct (chained_request_waits_interval (fun _ => 80%nat) chain_a_then_b
              (Loop 5000 5000 (Finite 2000)
                    [(5080%Z, ReadyStateChange "a" 4); (5090%Z, TimerFired "z")]
                    [("a", 5000%Z)] [])
              "a" 5080 2000 [(5090%Z, TimerFired "z")] eq_refl eq_refl)
    as (_ & _ & _ & st1 & c & H1 & H2 & H3 & H4).
  exists st1, c. repeat split; [exact H1 | exact H2 | exact H3|].
  apply (H4 "b"). vm_compute. left.
Defined.

(** C5, as stated, fails: two calls issued one after the other compute the
    same delay, both requests begin at the same instant, and the second has
    begun before the first is complete. *)
Lemma back_to_back_requests_counterexample :
  let final :=
    run (fun _ => 80%nat) (fun _ => []) 8
      (requestRedditJSON_call "b" (requestRedditJSON_call "a" (Loop 5000 0 (Finite 2000) [] [] []))) in
  begun final = [("a", 5000%Z); ("b", 5000%Z)] /\
  completed final = [("a", 5080%Z); ("b", 5080%Z)] /\
  ~ spaced 2000 "a" "b" final.
Proof.
  cbv zeta. split; [vm_compute; reflexivity|]. split; [vm_compute; reflexivity|].
  intros H. specialize (H 5080%Z 5000%Z).
  assert (5080 + 2000 <= 5000)%Z; [|lia].
  apply H; vm_compute; repeat constructor.
Qed.

(** Once the delay input has been edited the interval is NaN, and every
    later call sets its timer to fire at once. *)
Lemma edited_interval_means_no_delay url st :
  queue (requestRedditJSON_call url (delayBetweenRequests_input st))
  = enqueue (now st + 0)%Z (TimerFired url) (queue st).
Proof. reflexivity. Qed.

End TimingFacts.

(** ** The session, step by step *)

Module ScenarioFacts.
Import Canon JS Engine EngineFacts Scenario.

Example extract_first : extract_post env payload_first = Normal post_first.
Proof. vm_compute. reflexivity. Qed.

Example extract_removed :
  extract_post env payload_removed = Throw (TypeError "undefined has no property data").
Proof. vm_compute. reflexivity. Qed.

Lemma fetched_first_time url json w :
  requestRedditJsonCache w !! url = None ->
  status (next_response env url w) = 200%Z ->
  responseJSON (next_response env url w) = Some json ->
  resolves env url w json (after_fetch url json w).
Proof. intros H1 H2 H3. right. repeat split; assumption. Qed.

Lemma collectPost_malformed_payload_escapes_witness :
  collectPost env "https://redd.it/ZZZ999" on_collected on_failed start
  = (Uncaught (TypeError "undefined has no property data"),
     after_fetch url_removed payload_removed start).
Proof.
  apply (collectPost_malformed_payload_escapes env "https://redd.it/ZZZ999" start
           (after_fetch url_removed payload_removed start) payload_removed).
  - apply (fetched_first_time url_removed); vm_compute; reflexivity.
  - vm_compute; reflexivity.
Defined.

Lemma wiki_page_without_parts_calls_nothing_witness :
  collectSeriesInfoFromWikiPage env url_plain on_completed on_failed start
  = (Finished, after_fetch url_plain payload_plain start) /\
  notifications (after_fetch url_plain payload_plain start) = [].
Proof.
  split; [|reflexivity].
  apply (wiki_page_without_parts_calls_nothing env url_plain start
           (after_fetch url_plain payload_plain start) payload_plain
           (VStr "wikipage") (obj [("content_html", VStr html_plain)]) html_plain).
  - apply (fetched_first_time url_plain); vm_compute; reflexivity.
  - vm_compute; reflexivity.
  - reflexivity.
  - vm_compute; reflexivity.
  - vm_compute; reflexivity.
  - intros l Hl. vm_compute in Hl. inversion Hl as [|? ? ? Hl']; subst.
    + exists "https://example.com/about". split; reflexivity.
    + inversion Hl'.
Defined.

(** C3, as the code has it: the check of the payload's kind reports the
    error and does not return.  On a payload of another kind that carries
    [data.content_html], discovery calls the error callback, then parses the
    markup, extracts the part, fetches its post and calls the completion
    callback. *)
Theorem wiki_kind_check_does_not_return :
  let run := collectSeriesInfoFromWikiPage env url_other on_completed on_failed start in
  fst run = Finished /\
  notifications (snd run)
  = [Failed (url_other +:+ " is not a wiki page");
     Completed (Series (VStr "Chapter one") (VStr "alice")
                  [Part (Some "abc123") "https://redd.it/abc123" "Part 1"])] /\
  map fst (requests (snd run)) = [url_other +:+ ".json"; url_first +:+ ".json"].
Proof. vm_compute. repeat split. Qed.

Lemma collectPartPosts_aborts_on_failure_witness :
  notifications (snd (collectPartPosts env [part_one; part_two; part_three] observers start))
  = [CollectedPost (with_title post_first "One");
     Error (PartFailure "Failed to retrieve url 'https://www.reddit.com/r/HFY/comments/def456/' (Service Unavailable)"
              part_two)] /\
  map fst (requests (snd (collectPartPosts env [part_one; part_two; part_three] observers start)))
  = [url_first +:+ ".json"; url_second +:+ ".json"].
Proof.
  pose (w1 := after_fetch url_first payload_first start).
  pose (w1' := notify (CollectedPost (with_title post_first "One")) w1).
  destruct (collectPartPosts_aborts_on_failure env part_one part_two part_three observers
              (fun _ => Continue) (fun _ => Continue) start w1
              (snd (exchange env url_second w1')) post_first
              (retrieval_error url_second (next_response env url_second w1')))
    as (Hrun & Hnotes & Hreqs).
  - reflexivity.
  - reflexivity.
  - exists payload_first. split.
    + apply (fetched_first_time url_first); vm_compute; reflexivity.
    + vm_compute; reflexivity.
  - reflexivity.
  - repeat split; vm_compute; congruence.
  - rewrite Hrun. cbn [snd]. rewrite Hnotes, Hreqs. vm_compute. split; reflexivity.
Defined.

Lemma visited_links_end_the_crawl_witness :
  findNextURL env body_first [Some "abc123"] = Normal None /\
  collectPostRecurse env 1 observers "https://redd.it/abc123" [] [] start
  = (Finished,
     notify (Done [post_first])
       (notify (CollectedPost post_first) (after_fetch url_first payload_first start))).
Proof.
  apply (visited_links_end_the_crawl env 0 observers "https://redd.it/abc123" [] []
           start (after_fetch url_first payload_first start) post_first
           (fun text => String.eqb (toLowerCase text) "next") (fun _ => Continue)).
  - exists payload_first. split.
    + apply (fetched_first_time url_first); vm_compute; reflexivity.
    + vm_compute; reflexivity.
  - intros f [= <-]. reflexivity.
  - reflexivity.
  - reflexivity.
  - intros l Hl _. vm_compute in Hl. inversion Hl as [|? ? ? Hl']; subst.
    + exists "https://redd.it/ABC123". split; [reflexivity|]. vm_compute. left.
    + inversion Hl'.
Defined.

Lemma findNextURL_returns_unnamed_link_witness :
  findNextURL env body_third [Some "abc123"; Some "ghi789"]
  = Normal (Some "https://example.com/sequel").
Proof.
  apply (findNextURL_returns_unnamed_link env body_third [Some "abc123"; Some "ghi789"]
           (fun text => String.eqb (toLowerCase text) "next")
           [] [] (anchor "https://example.com/sequel" "Next")).
  - reflexivity.
  - intros H. apply list_elem_of_In in H. simpl in H. intuition discriminate.
  - vm_compute; reflexivity.
  - constructor.
  - reflexivity.
  - reflexivity.
  - vm_compute; reflexivity.
Defined.

Lemma cached_fetch_memoizes_witness :
  requestRedditJSONCached env url_first on_resolved on_failed start
  = on_resolved payload_first (after_fetch url_first payload_first start) /\
  requestRedditJSONCached env url_first on_resolved on_failed
    (after_fetch url_first payload_first start)
  = on_resolved payload_first (after_fetch url_first payload_first start).
Proof.
  destruct (cached_fetch_memoizes env url_first start) as [Hok _]; [reflexivity|].
  destruct (Hok payload_first) as (Hfirst & Hstored & Hlater & _);
    [vm_compute; reflexivity | vm_compute; reflexivity|].
  split.
  - apply Hfirst.
  - apply Hlater. exact Hstored.
Defined.

(** A link without an identifier is followed: the crawl asks for the post
    named "undefined". *)
Example crawl_follows_unnamed_link :
  let run := findSeriesParts env 5 url_third observers start in
  fst run = Finished /\
  notifications (snd run)
  = [CollectedPost post_third;
     FoundUrl "https://example.com/sequel";
     Log "Failed at post 'https://example.com/sequel': undefined" "error";
     Error (FetchFailure
              "Failed to retrieve url 'https://www.reddit.com/r/HFY/comments/undefined/' (Not Found)")] /\
  map fst (requests (snd run))
  = [url_third +:+ ".json"; "https://www.reddit.com/r/HFY/comments/undefined/.json"].
Proof. vm_compute. repeat split. Qed.

(** A kind that is no string is compared through its primitive string: the
    array [["wikipage"]] passes the check of the kind, and an object with
    a [toString] property of its own makes the comparison throw. *)
Example kind_array_equals_wikipage :
  loose_eq_wikipage (VArr [VStr "wikipage"]) = Normal true.
Proof. reflexivity. Qed.

Example kind_object_is_not_wikipage :
  loose_eq_wikipage (obj [("valueOf", VNum "1")]) = Normal false.
Proof. vm_compute. reflexivity. Qed.

Example kind_with_own_toString_throws :
  loose_eq_wikipage (obj [("toString", VNum "1")])
  = Throw (TypeError "Cannot convert object to primitive value").
Proof. vm_compute. reflexivity. Qed.

End ScenarioFacts.

(** ** Further properties of the canonicalizer *)

Module CanonMore.
Import Canon CanonFacts.

(** X1: every name [nameFromURL] returns is a non-empty run of lowercase
    letters and digits. *)
Theorem names_are_identifiers (url name : string) :
  nameFromURL url = Some name ->
  name <> EmptyString /\
  all_chars (fun c => is_lower c || is_digit c) name = true /\
  toLowerCase name = name.
Proof.
  intros H. apply nameFromURL_identifier, is_identifier_spec in H as [Hne Hall].
  repeat split; [exact Hne | exact Hall | apply toLowerCase_fixed, Hall].
Qed.

Lemma names_are_identifiers_witness :
  "4ab9zx" <> EmptyString /\
  all_chars (fun c => is_lower c || is_digit c) "4ab9zx" = true /\
  toLowerCase "4ab9zx" = "4ab9zx".
Proof. apply (names_are_identifiers "https://redd.it/4Ab9Zx" "4ab9zx"). reflexivity. Defined.

Lemma append_inj_l pre x y : pre +:+ x = pre +:+ y -> x = y.
Proof.
  induction pre as [|c pre IH]; [rewrite !append_nil; auto|].
  rewrite !append_cons. intros [= H]. apply IH, H.
Qed.

Lemma append_slash_inj a b : a +:+ "/" = b +:+ "/" -> a = b.
Proof.
  revert b. induction a as [|c a IH]; intros [|d b];
    rewrite ?append_cons, ?append_nil; intros H.
  - reflexivity.
  - injection H as _ H. destruct b; discriminate.
  - injection H as _ H. destruct a; discriminate.
  - injection H as -> H. f_equal. apply IH, H.
Qed.

Lemma urlFromName_inj a b : urlFromName (Some a) = urlFromName (Some b) -> a = b.
Proof.
  unfold urlFromName, to_string. intros H.
  apply append_inj_l in H. apply append_slash_inj, H.
Qed.

(** X2: the canonical URL of an identifier names that identifier and is its
    own normal form, and two identifiers share a canonical URL only when
    they are equal. *)
Theorem canonical_url_round_trip (a b : string) :
  is_identifier a = true ->
  nameFromURL (urlFromName (Some a)) = Some a /\
  unshorten (urlFromName (Some a)) = urlFromName (Some a) /\
  (urlFromName (Some a) = urlFromName (Some b) -> a = b).
Proof.
  intros Ha. pose proof (nameFromURL_urlFromName a Ha) as Hn.
  repeat split; [exact Hn | unfold unshorten; rewrite Hn; reflexivity |].
  apply urlFromName_inj.
Qed.

Lemma canonical_url_round_trip_witness :
  nameFromURL (urlFromName (Some "abc123")) = Some "abc123" /\
  unshorten (urlFromName (Some "abc123")) = urlFromName (Some "abc123") /\
  (urlFromName (Some "abc123") = urlFromName (Some "abc124") -> "abc123" = "abc124").
Proof. apply (canonical_url_round_trip "abc123" "abc124"). reflexivity. Defined.

(** X3: in a link whose first match of the short pattern is at its head,
    nothing after the token matters: whatever follows a short link, also a
    long-form path, the name is the lowercased token. *)
Theorem short_link_ignores_what_follows (tok rest : string) :
  is_token tok = true ->
  take_alnum rest = EmptyString ->
  nameFromURL (short_form tok +:+ rest) = Some (toLowerCase tok).
Proof.
  intros Htok Hrest. unfold nameFromURL, short_form.
  assert (H : regex_search short_pattern (("https://redd.it/" +:+ tok) +:+ rest) = Some tok).
  { unfold_append. skip_misses.
    apply regex_search_hit, (match_here_capture _ _ tok rest); auto. }
  rewrite H. reflexivity.
Qed.

Lemma short_link_ignores_what_follows_witness :
  nameFromURL (short_form "4Ab9Zx" +:+ "/r/HFY/comments/zzz999/") = Some "4ab9zx".
Proof.
  apply (short_link_ignores_what_follows "4Ab9Zx" "/r/HFY/comments/zzz999/"); reflexivity.
Defined.

End CanonMore.

(** ** Further properties of the fetch layer, the cache and the collector *)

Module FetchMore.
Import Canon CanonFacts JS Engine EngineFacts TimingFacts Vocabulary.

Section WithEnv.
Context (E : Env).

(** A rule for the cached fetch that carries a property [J] of the world
    from the call to whichever callback runs. *)
Lemma cached_fetch_rule (J : world -> Prop) url successCallback errorCallback w
    (Q : outcome * world -> Prop) :
  J w ->
  (requestRedditJsonCache w !! url = None -> J (snd (exchange E url w))) ->
  (forall json, requestRedditJsonCache w !! url = None ->
                J (cache_set url json (snd (exchange E url w)))) ->
  (forall json w', J w' -> Q (successCallback json w')) ->
  (forall message w', J w' -> Q (errorCallback message w')) ->
  (forall e w', J w' -> Q (Uncaught e, w')) ->
  Q (requestRedditJSONCached E url successCallback errorCallback w).
Proof.
  intros Hw Hx Hc Hs He Ht. unfold requestRedditJSONCached.
  destruct (requestRedditJsonCache w !! url) as [json|] eqn:Hurl; [apply Hs, Hw|].
  unfold requestRedditJSON.
  specialize (Hx eq_refl). pose proof (fun json => Hc json eq_refl) as Hc'.
  destruct (exchange E url w) as [r w']. cbn [snd] in *.
  destruct (status r =? 200)%Z; [|apply He, Hx].
  destruct (responseJSON r); [apply Hs, Hc' | apply Ht, Hx].
Qed.

Lemma collectPost_rule (J : world -> Prop) url successCallback errorCallback w
    (Q : outcome * world -> Prop) :
  J w ->
  (requestRedditJsonCache w !! unshorten url = None ->
   J (snd (exchange E (unshorten url) w))) ->
  (forall json, requestRedditJsonCache w !! unshorten url = None ->
                J (cache_set (unshorten url) json (snd (exchange E (unshorten url) w)))) ->
  (forall p w', J w' -> Q (successCallback p w')) ->
  (forall message w', J w' -> Q (errorCallback message w')) ->
  (forall e w', J w' -> Q (Uncaught e, w')) ->
  Q (collectPost E url successCallback errorCallback w).
Proof.
  intros Hw Hx Hc Hs He Ht. unfold collectPost.
  apply (cached_fetch_rule J); auto.
  intros json w' Hw'. destruct (extract_post E json); [apply Hs | apply Ht]; exact Hw'.
Qed.

Lemma isCached_true url w json :
  requestRedditJsonCache w !! url = Some json -> isCached url w = true.
Proof. intros H. unfold isCached. apply bool_decide_eq_true. eauto. Qed.

(** X4: once a post has been collected, its name counts as cached for
    every URL that names it, and collecting it again through any such URL
    makes no request and hands over the same post. *)
Theorem collected_post_is_shared (url url' : string) (w w' : world) (p : post) :
  collects E url w p w' ->
  nameFromURL url' = nameFromURL url ->
  isNameCached (nameFromURL url') w' = true /\
  forall successCallback errorCallback,
    collectPost E url' successCallback errorCallback w' = successCallback p w'.
Proof.
  intros (json & Hres & Hpost) Hname.
  pose proof (resolves_cached _ _ _ _ _ Hres) as Hin.
  assert (Hu : unshorten url' = unshorten url) by (unfold unshorten; rewrite Hname; reflexivity).
  split.
  - unfold isNameCached. fold (unshorten url'). rewrite Hu. eapply isCached_true, Hin.
  - intros s e. apply collects_spec. exists json. split; [|exact Hpost].
    left. rewrite Hu. auto.
Qed.

(** X5: an answer of status 200 whose body is not JSON makes [JSON.parse]
    throw inside the handler: the exception escapes, no callback of the
    cached fetch runs and nothing is stored. *)
Theorem unparseable_body_escapes (url : string) (w : world) :
  requestRedditJsonCache w !! url = None ->
  status (next_response E url w) = 200%Z ->
  responseJSON (next_response E url w) = None ->
  (forall successCallback errorCallback,
      requestRedditJSONCached E url successCallback errorCallback w
      = (Uncaught (SyntaxError "JSON.parse"), snd (exchange E url w))) /\
  isCached url (snd (exchange E url w)) = false.
Proof.
  intros Hmiss Hs Hj. split.
  - intros s e. rewrite cached_miss by exact Hmiss.
    unfold requestRedditJSON, exchange, next_response in *. cbn [snd].
    rewrite Hs, Hj. reflexivity.
  - unfold isCached. rewrite exchange_cache, Hmiss. reflexivity.
Qed.

(** X6: a URL that names no post is collected all the same: the one request
    made is for the post called "undefined", and every callback runs after
    it. *)
Theorem collectPost_without_name_asks_for_undefined (url : string) (w : world)
    (successCallback : post -> task) (errorCallback : string -> task)
    (Q : outcome * world -> Prop) :
  nameFromURL url = None ->
  requestRedditJsonCache w !! undefined_post_url = None ->
  let asked w' :=
    map fst (requests w') = map fst (requests w) ++ [undefined_post_url +:+ ".json"] in
  (forall p w', asked w' -> Q (successCallback p w')) ->
  (forall message w', asked w' -> Q (errorCallback message w')) ->
  (forall e w', asked w' -> Q (Uncaught e, w')) ->
  Q (collectPost E url successCallback errorCallback w).
Proof.
  intros Hname Hmiss asked Hs He Ht.
  assert (Hu : unshorten url = undefined_post_url) by (unfold unshorten; rewrite Hname; reflexivity).
  assert (Hasked : asked (snd (exchange E undefined_post_url w))).
  { unfold asked. rewrite exchange_requests, map_app. reflexivity. }
  unfold collectPost. rewrite Hu, cached_miss by exact Hmiss.
  unfold requestRedditJSON. destruct (exchange E undefined_post_url w) as [r w'].
  cbn [snd] in Hasked.
  destruct (status r =? 200)%Z; [|apply He, Hasked].
  destruct (responseJSON r) as [json|]; [|apply Ht, Hasked].
  destruct (extract_post E json); [apply Hs | apply Ht]; exact Hasked.
Qed.

Lemma extract_post_data json :
  extract_post E json
  = let* p := post_data json in
    let* html := get p (Name "selftext_html") in
    let* content := he_decode_value E html in
    let* author := get p (Name "author") in
    let* title := get p (Name "title") in
    let* name := get p (Name "name") in
    let* url := get p (Name "url") in
    Normal (Post author title name content url).
Proof.
  unfold extract_post, post_data.
  destruct (get json (Index 0)) as [first|]; [cbn [bind]|reflexivity].
  destruct (get first (Name "data")) as [data|]; [cbn [bind]|reflexivity].
  destruct (get data (Name "children")) as [children|]; [cbn [bind]|reflexivity].
  destruct (get children (Index 0)) as [child|]; reflexivity.
Qed.

(** X7: a post whose [selftext_html] is not a string, as the [null] of a
    link post, cannot be collected: [he.decode] throws, the exception
    escapes and neither callback of [collectPost] runs. *)
Theorem post_without_markup_escapes (url : string) (w w' : world)
    (json p html : value) :
  resolves E (unshorten url) w json w' ->
  post_data json = Normal p ->
  get p (Name "selftext_html") = Normal html ->
  (forall s, html <> VStr s) ->
  forall successCallback errorCallback,
    collectPost E url successCallback errorCallback w
    = (Uncaught (TypeError "html.replace is not a function"), w').
Proof.
  intros Hres Hp Hhtml Hns s e.
  unfold collectPost. rewrite (resolves_spec _ _ _ _ _ _ _ Hres).
  rewrite extract_post_data, Hp. cbn [bind]. rewrite Hhtml. cbn [bind].
  destruct html; try reflexivity. exfalso. eapply Hns. reflexivity.
Qed.

End WithEnv.
End FetchMore.

(** ** What every run of the engine keeps *)

Module Invariants.
Import Canon CanonFacts JS Engine EngineFacts TimingFacts Vocabulary FetchMore.

Lemma preserves_skip I : preserves I skip.
Proof. intros w Hw. exact Hw. Qed.

Lemma preserves_throw I e : preserves I (throw e).
Proof. intros w Hw. exact Hw. Qed.

Lemma preserves_seq I a b : preserves I a -> preserves I b -> preserves I (a ;; b).
Proof.
  intros Ha Hb w Hw. unfold seq. specialize (Ha w Hw).
  destruct (a w) as [[| |] w']; cbn [snd] in *; auto.
Qed.

Lemma preserves_try {A : Type} I (c : completion A) k :
  (forall a, preserves I (k a)) -> preserves I (try_ c k).
Proof. intros Hk. destruct c; cbn; [apply Hk | apply preserves_throw]. Qed.

Section WithEnv.
Context (E : Env) (I : world -> Prop) (Hstable : stable E I).

Lemma preserves_emit n : preserves I (emit n).
Proof. intros w Hw. apply Hstable, Hw. Qed.

Lemma preserves_call {A : Type} (h : option (A -> verdict)) n (arg : A) k :
  preserves I k -> preserves I (call h n arg k).
Proof.
  intros Hk w Hw. unfold call. destruct h as [f|]; [|apply Hk, Hw].
  destruct (f arg); [apply Hk|]; apply Hstable, Hw.
Qed.

Lemma preserves_cached_fetch url successCallback errorCallback :
  (forall json, preserves I (successCallback json)) ->
  (forall message, preserves I (errorCallback message)) ->
  preserves I (requestRedditJSONCached E url successCallback errorCallback).
Proof.
  intros Hs He w Hw. destruct Hstable as (Hx & Hc & _).
  apply (cached_fetch_rule E I url _ _ w (fun r => I (snd r))).
  - exact Hw.
  - intros Hmiss. apply Hx; assumption.
  - intros json Hmiss. apply Hc; [apply Hx; assumption|].
    rewrite exchange_cache. exact Hmiss.
  - intros json w' Hw'. apply Hs, Hw'.
  - intros m w' Hw'. apply He, Hw'.
  - intros e w' Hw'. exact Hw'.
Qed.

Lemma preserves_collectPost url successCallback errorCallback :
  (forall p, preserves I (successCallback p)) ->
  (forall message, preserves I (errorCallback message)) ->
  preserves I (collectPost E url successCallback errorCallback).
Proof.
  intros Hs He. unfold collectPost. apply preserves_cached_fetch; [|exact He].
  intros json. apply preserves_try, Hs.
Qed.

Lemma preserves_collectPart cbs remaining posts :
  preserves I (collectPart E cbs remaining posts).
Proof.
  revert posts. induction remaining as [|p rest IH]; intros posts; cbn [collectPart].
  - apply preserves_call, preserves_skip.
  - apply preserves_collectPost.
    + intros collected. apply preserves_call, IH.
    + intros message. apply preserves_call, preserves_skip.
Qed.

Lemma preserves_collectPostRecurse fuel cbs url collectedPosts previousNames :
  preserves I (collectPostRecurse E fuel cbs url collectedPosts previousNames).
Proof.
  revert url collectedPosts previousNames.
  induction fuel as [|fuel IH]; intros url posts prev; cbn [collectPostRecurse].
  - intros w Hw. exact Hw.
  - apply preserves_collectPost.
    + intros p. apply preserves_call. cbv zeta. apply preserves_try. intros nextUrl.
      destruct (followable nextUrl); apply preserves_call; [apply IH | apply preserves_skip].
    + intros message. apply preserves_seq; [apply preserves_emit|].
      apply preserves_call, preserves_skip.
Qed.

Lemma preserves_wiki url completionCallback errorCallback :
  (forall s, preserves I (completionCallback s)) ->
  (forall message, preserves I (errorCallback message)) ->
  preserves I (collectSeriesInfoFromWikiPage E url completionCallback errorCallback).
Proof.
  intros Hk He. unfold collectSeriesInfoFromWikiPage.
  apply preserves_cached_fetch; [|exact He].
  intros json. apply preserves_try. intros kind. apply preserves_try. intros wiki.
  apply preserves_seq.
  - destruct (negb wiki); [apply He | apply preserves_skip].
  - apply preserves_try. intros data. apply preserves_try. intros html.
    apply preserves_try. intros indexHtml. cbv zeta. apply preserves_try.
    intros [|first parts]; [apply preserves_skip|].
    apply preserves_collectPost; [|exact He]. intros p. apply Hk.
Qed.

End WithEnv.

(** *** Spacing of the requests *)

Lemma gaps_at_least_snoc ms times t :
  gaps_at_least ms times ->
  Forall (fun t' => (t' + ms <= t)%Z) times ->
  gaps_at_least ms (times ++ [t]).
Proof.
  induction times as [|t1 rest IH]; [cbn; auto|].
  intros Hg Hall. apply Forall_cons in Hall as [H1 Hrest].
  destruct rest as [|t2 rest'].
  - cbn. auto.
  - cbn [gaps_at_least app] in *. destruct Hg as [H12 Hg]. split; [exact H12|].
    apply IH; assumption.
Qed.

Lemma stable_well_spaced E ms : stable E (well_spaced ms).
Proof.
  split; [|split].
  - intros url w (Hi & Hl & Hg & Hf) _.
    pose proof (timeout_delay_nonneg (timeOfLastRealRequest w)
                  (timeInMsBetweenRequests w) (clock w)) as Hd.
    unfold well_spaced, begin_times. cbn. rewrite map_app. cbn.
    split; [exact Hi|]. split; [lia|]. split.
    + apply gaps_at_least_snoc; [exact Hg|].
      eapply Forall_impl; [exact Hf|]. intros t Ht. cbn in Ht.
      unfold requestDelay. rewrite Hi. cbn. lia.
    + apply Forall_app. split.
      * eapply Forall_impl; [exact Hf|]. intros t Ht. cbn in Ht.
        unfold requestDelay. lia.
      * constructor; [lia | constructor].
  - intros url json w H _. exact H.
  - intros n w H. exact H.
Qed.

(** X8: a batch or a crawl that starts from a spaced request log leaves a
    spaced request log: any two consecutive requests of the log begin at
    least the interval apart, and none begins after the shared timestamp. *)
Theorem runs_keep_requests_spaced (E : Env) (ms : Z) (w : world) :
  well_spaced ms w ->
  (forall parts cbs, well_spaced ms (snd (collectPartPosts E parts cbs w))) /\
  (forall fuel startUrl cbs, well_spaced ms (snd (findSeriesParts E fuel startUrl cbs w))).
Proof.
  intros Hw. split.
  - intros parts cbs. apply (preserves_collectPart E _ (stable_well_spaced E ms)), Hw.
  - intros fuel url cbs.
    apply (preserves_collectPostRecurse E _ (stable_well_spaced E ms)), Hw.
Qed.

(** *** Nothing is taken back *)

Lemma stable_grown_from E w0 : stable E (grown_from w0).
Proof.
  split; [|split].
  - intros url w (Hc & Hr & Hn & Ht & Hi) _.
    pose proof (timeout_delay_nonneg (timeOfLastRealRequest w)
                  (timeInMsBetweenRequests w) (clock w)) as Hd.
    unfold grown_from. cbn. repeat split; auto.
    + apply prefix_app_r, Hr.
    + unfold requestDelay. lia.
  - intros url json w (Hc & Hr & Hn & Ht & Hi) Hmiss.
    unfold grown_from. cbn. repeat split; auto.
    etransitivity; [exact Hc|]. apply insert_subseteq, Hmiss.
  - intros n w (Hc & Hr & Hn & Ht & Hi).
    unfold grown_from. cbn. repeat split; auto. apply prefix_app_r, Hn.
Qed.

Lemma grown_from_refl w : grown_from w w.
Proof. repeat split; reflexivity. Qed.

(** X9: a batch or a crawl only adds: every cache entry it found is still
    there with its value, the request log and the notifications are
    extended at their end, the clock has not gone back and the interval is
    untouched. *)
Theorem runs_only_add (E : Env) (w : world) :
  (forall parts cbs, grown_from w (snd (collectPartPosts E parts cbs w))) /\
  (forall fuel startUrl cbs, grown_from w (snd (findSeriesParts E fuel startUrl cbs w))).
Proof.
  split.
  - intros parts cbs.
    apply (preserves_collectPart E _ (stable_grown_from E w)), grown_from_refl.
  - intros fuel url cbs.
    apply (preserves_collectPostRecurse E _ (stable_grown_from E w)), grown_from_refl.
Qed.

End Invariants.

(** ** Further properties of the batch collector *)

Module BatchMore.
Import Canon CanonFacts JS Engine EngineFacts Vocabulary FetchMore.

Section WithEnv.
Context (E : Env).

Lemma call_skip {A : Type} (h : option (A -> verdict)) n (arg : A) w :
  call h n arg skip w = (Finished, observed h n arg w).
Proof.
  unfold call, observed, skip. destruct h as [f|]; [|reflexivity].
  destruct (f arg); reflexivity.
Qed.

Lemma observed_cache {A : Type} (h : option (A -> verdict)) n (arg : A) w :
  requestRedditJsonCache (observed h n arg w) = requestRedditJsonCache w.
Proof. unfold observed. destruct h; reflexivity. Qed.

Lemma observed_requests {A : Type} (h : option (A -> verdict)) n (arg : A) w :
  requests (observed h n arg w) = requests w.
Proof. unfold observed. destruct h; reflexivity. Qed.

Lemma announced_cons cbs p posts w :
  announced cbs (p :: posts) w
  = announced cbs posts (observed (cb_collectedPost cbs) CollectedPost p w).
Proof. reflexivity. Qed.

Lemma announced_cache cbs posts w :
  requestRedditJsonCache (announced cbs posts w) = requestRedditJsonCache w.
Proof.
  revert w. induction posts as [|p posts IH]; intros w; [reflexivity|].
  rewrite announced_cons, IH. apply observed_cache.
Qed.

Lemma announced_requests cbs posts w :
  requests (announced cbs posts w) = requests w.
Proof.
  revert w. induction posts as [|p posts IH]; intros w; [reflexivity|].
  rewrite announced_cons, IH. apply observed_requests.
Qed.

Lemma cached_post_moves w w' p collected :
  requestRedditJsonCache w' = requestRedditJsonCache w ->
  cached_post E w p collected -> cached_post E w' p collected.
Proof. intros Hc (json & Hin & Hp). exists json. rewrite Hc. auto. Qed.

Lemma cached_post_collects w p collected :
  cached_post E w p collected -> collects E (part_url p) w collected w.
Proof. intros (json & Hin & Hp). exists json. split; [left; auto | exact Hp]. Qed.

(** Parts that are cached are collected one after the other without a
    request, each announced under its listing title. *)
Lemma collectPart_cached_prefix cbs before posts rest acc w :
  Forall2 (cached_post E w) before posts ->
  goes_on cbs (zip_with titled before posts) ->
  collectPart E cbs (before ++ rest) acc w
  = collectPart E cbs rest (acc ++ zip_with titled before posts)
      (announced cbs (zip_with titled before posts) w).
Proof.
  revert posts acc w. induction before as [|p before IH]; intros posts acc w Hcached Hgo.
  - apply Forall2_nil_inv_l in Hcached as ->. cbn. rewrite app_nil_r. reflexivity.
  - apply Forall2_cons_inv_l in Hcached as (collected & posts' & Hp & Hrest & ->).
    cbn [app zip_with] in *. apply Forall_cons in Hgo as [Hgo1 Hgo].
    cbn [collectPart]. rewrite (collects_spec _ _ _ _ _ _ _ (cached_post_collects _ _ _ Hp)).
    rewrite call_continue by exact Hgo1.
    rewrite (IH posts'); [|eapply Forall2_impl; [exact Hrest|]|exact Hgo].
    + rewrite announced_cons, <- app_assoc. reflexivity.
    + intros q c. apply cached_post_moves, observed_cache.
Qed.

(** X10: a batch whose parts are all cached makes no request: each post is
    announced in order under its listing title, and the done handler gets
    exactly these posts. *)
Theorem batch_from_cache (parts : list part) (posts : list post) (cbs : callbacks)
    (w : world) :
  Forall2 (cached_post E w) parts posts ->
  goes_on cbs (zip_with titled parts posts) ->
  collectPartPosts E parts cbs w
  = (Finished,
     observed (cb_done cbs) Done (zip_with titled parts posts)
       (announced cbs (zip_with titled parts posts) w)) /\
  requests (observed (cb_done cbs) Done (zip_with titled parts posts)
              (announced cbs (zip_with titled parts posts) w))
  = requests w.
Proof.
  intros Hcached Hgo. split.
  - unfold collectPartPosts. rewrite <- (app_nil_r parts) at 1.
    rewrite (collectPart_cached_prefix _ _ posts) by assumption.
    cbn [collectPart app]. apply call_skip.
  - rewrite observed_requests. apply announced_requests.
Qed.

(** X11: wherever in the list the first failing fetch occurs, the batch
    ends there: the parts before it have been announced, the error handler
    is called with the message and the failing part, the request for that
    part is the only one made, and what follows in the list plays no
    role. *)
Theorem batch_stops_at_first_failure (before after : list part) (p : part)
    (posts : list post) (cbs : callbacks) (w w2 : world) (message : string) :
  Forall2 (cached_post E w) before posts ->
  goes_on cbs (zip_with titled before posts) ->
  rejects E (unshorten (part_url p))
    (announced cbs (zip_with titled before posts) w) message w2 ->
  collectPartPosts E (before ++ p :: after) cbs w
  = (Finished, observed (cb_error cbs) Error (PartFailure message p) w2) /\
  map fst (requests (observed (cb_error cbs) Error (PartFailure message p) w2))
  = map fst (requests w) ++ [unshorten (part_url p) +:+ ".json"].
Proof.
  intros Hcached Hgo Hrej. split.
  - unfold collectPartPosts.
    rewrite (collectPart_cached_prefix _ _ posts) by assumption.
    cbn [collectPart]. rewrite (collectPost_rejected _ _ _ _ _ _ _ Hrej).
    apply call_skip.
  - rewrite observed_requests. destruct Hrej as (_ & _ & _ & ->).
    rewrite exchange_requests, map_app, announced_requests. reflexivity.
Qed.


Lemma collected_of_app a b : collected_of (a ++ b) = collected_of a ++ collected_of b.
Proof. apply omap_app. Qed.

Lemma done_of_app a b : done_of (a ++ b) = done_of a ++ done_of b.
Proof. apply omap_app. Qed.

Lemma done_of_collected p l : done_of (CollectedPost p :: l) = done_of l.
Proof. reflexivity. Qed.

Lemma collected_of_collected p l :
  collected_of (CollectedPost p :: l) = p :: collected_of l.
Proof. reflexivity. Qed.

Lemma batch_report_collectPart cbs onCollected remaining acc w :
  cb_collectedPost cbs = Some onCollected ->
  batch_report remaining acc w (collectPart E cbs remaining acc w).
Proof.
  intros Hh. revert acc w. induction remaining as [|p rest IH]; intros acc w.
  - cbn [collectPart]. rewrite call_skip. unfold batch_report, observed.
    destruct (cb_done cbs).
    + exists [], [Done acc]. cbn. split; [reflexivity|]. split; [|reflexivity].
      right. left. rewrite app_nil_r. auto.
    + exists [], []. cbn. rewrite app_nil_r. auto.
  - cbn [collectPart].
    apply (collectPost_rule E (fun w' => notifications w' = notifications w));
      try reflexivity.
    + intros collected w' Hw'. rewrite Hh. unfold call.
      destruct (onCollected (with_title collected (part_title p))).
      * destruct (IH (acc ++ [with_title collected (part_title p)])
                    (notify (CollectedPost (with_title collected (part_title p))) w'))
          as (posts & last & Hn & Hlast & Ht).
        exists (with_title collected (part_title p) :: posts), last.
        split; [rewrite Hn; cbn; rewrite Hw', <- app_assoc; reflexivity|].
        split.
        -- destruct Hlast as [Hl | [[Hl Hlen] | (message & p' & Hl & Hp')]].
           ++ left. exact Hl.
           ++ right. left. split; [rewrite Hl, <- app_assoc; reflexivity|].
              cbn. rewrite Hlen. reflexivity.
           ++ right. right. exists message, p'. split; [exact Hl | exact Hp'].
        -- cbn [length take map]. rewrite Ht. reflexivity.
      * exists [with_title collected (part_title p)], [].
        cbn. rewrite Hw'. auto.
    + intros message w' Hw'. rewrite call_skip. unfold observed.
      destruct (cb_error cbs).
      * exists [], [Error (PartFailure message p)]. cbn. rewrite Hw'.
        split; [reflexivity|]. split; [|reflexivity].
        right. right. exists message, p. auto.
      * exists [], []. cbn. rewrite app_nil_r, Hw'. auto.
    + intros e w' Hw'. exists [], []. cbn. rewrite app_nil_r, Hw'. auto.
Qed.

(** X13: whatever the remote side answers, the notifications of a batch
    are the announced posts, each under the listing title of its part and
    in the order of the parts, followed by at most one more call, which is
    the last: either the done call, made only when every part has been
    announced and with exactly the announced posts in their order, or the
    error call for the part that comes next in the list. *)
Theorem batch_done_matches_collected (parts : list part) (cbs : callbacks)
    (onCollected : post -> verdict) (w : world) :
  cb_collectedPost cbs = Some onCollected ->
  exists posts last,
    notifications (snd (collectPartPosts E parts cbs w))
    = notifications w ++ map CollectedPost posts ++ last /\
    (last = [] \/
     (last = [Done posts] /\ length posts = length parts) \/
     (exists message p,
         last = [Error (PartFailure message p)] /\ parts !! length posts = Some p)) /\
    map post_title posts
    = map (fun p => VStr (part_title p)) (take (length posts) parts).
Proof.
  intros Hh. apply (batch_report_collectPart cbs onCollected parts [] w Hh).
Qed.

End WithEnv.
End BatchMore.

(** ** Further properties of link-following discovery *)

Module CrawlMore.
Import Canon CanonFacts JS Engine EngineFacts Vocabulary FetchMore BatchMore.

Section WithEnv.
Context (E : Env).

(** X14: the link [findNextURL] returns is the target of the first link of
    the post that is not passed over: its text matches the pattern, and its
    name is not among the previous names.  It returns [null] exactly when
    every link is passed over. *)
Theorem findNextURL_returns_first_fresh_match (content : string)
    (previousNames : list (option string)) (regex : string -> bool) :
  nextPostRegex E = Some regex ->
  let links := getElementsByTagName (parseFromString E content) "a" in
  (forall target,
      findNextURL E content previousNames = Normal (Some target) ->
      exists before link after,
        links = before ++ link :: after /\
        Forall (passed_over regex previousNames) before /\
        regex (textContent link) = true /\
        href link = Some target /\
        nameFromURL target ∉ previousNames) /\
  (findNextURL E content previousNames = Normal None <->
   Forall (passed_over regex previousNames) links).
Proof.
  intros Hre links. unfold findNextURL. rewrite Hre. fold links.
  generalize links. clear links. intros links. split.
  - intros target. induction links as [|l links IH]; [discriminate|].
    cbn [scan_links].
    assert (Hrest : passed_over regex previousNames l ->
                    scan_links regex links previousNames = Normal (Some target) ->
                    exists before link after,
                      l :: links = before ++ link :: after /\
                      Forall (passed_over regex previousNames) before /\
                      regex (textContent link) = true /\
                      href link = Some target /\
                      nameFromURL target ∉ previousNames).
    { intros Hl H. destruct (IH H) as (before & link & after & -> & Hb & Hrest).
      exists (l :: before), link, after. split; [reflexivity|].
      split; [constructor; assumption | exact Hrest]. }
    destruct (regex (textContent l)) eqn:Hm; [|apply Hrest; left; exact Hm].
    unfold name_of_link. destruct (href l) as [h|] eqn:Hh; [|discriminate]. cbn.
    destruct (includes previousNames (nameFromURL h)) eqn:Hinc; cbn.
    + apply Hrest. right. exists h. split; [exact Hh | apply includes_elem, Hinc].
    + intros [= <-]. exists [], l, links. repeat split; auto.
      intros Hin. apply includes_elem in Hin. congruence.
  - split; [|apply scan_links_exhausted].
    induction links as [|l links IH]; [constructor|].
    cbn [scan_links]. destruct (regex (textContent l)) eqn:Hm.
    + unfold name_of_link. destruct (href l) as [h|] eqn:Hh; [|discriminate]. cbn.
      destruct (includes previousNames (nameFromURL h)) eqn:Hinc; cbn; [|discriminate].
      intros H. constructor; [|apply IH, H].
      right. exists h. split; [exact Hh | apply includes_elem, Hinc].
    + intros H. constructor; [left; exact Hm | apply IH, H].
Qed.

(** X15: a link without [href] whose text matches the pattern, met before
    any link that could be followed, makes [findNextURL] throw: the crawl
    step ends with the exception after the post was announced, and the done
    handler is not called. *)
Theorem bare_matching_link_breaks_crawl (fuel : nat) (cbs : callbacks) (url : string)
    (collectedPosts : list post) (previousNames : list (option string))
    (w w1 : world) (p : post) (regex : string -> bool)
    (before after : list element) (link : element) :
  collects E url w p w1 ->
  (forall f, cb_collectedPost cbs = Some f -> f p = Continue) ->
  nextPostRegex E = Some regex ->
  getElementsByTagName (parseFromString E (post_content p)) "a" = before ++ link :: after ->
  Forall (passed_over regex (previousNames ++ [nameFromURL url])) before ->
  regex (textContent link) = true ->
  href link = None ->
  collectPostRecurse E (S fuel) cbs url collectedPosts previousNames w
  = (Uncaught (TypeError "null has no property match"),
     observed (cb_collectedPost cbs) CollectedPost p w1).
Proof.
  intros Hcol Hgo Hre Hlinks Hbefore Hm Hh.
  cbn [collectPostRecurse]. rewrite (collects_spec _ _ _ _ _ _ _ Hcol).
  rewrite call_continue by exact Hgo. cbv zeta.
  unfold findNextURL. rewrite Hre, Hlinks.
  rewrite scan_links_passed_over by exact Hbefore.
  cbn [scan_links]. rewrite Hm. unfold name_of_link. rewrite Hh. reflexivity.
Qed.

(** X16: any handler of the crawl can stop it.  When the collected handler
    answers [false], the crawl ends with that call; when the found-link
    handler answers [false], the crawl ends with that call and the link is
    not fetched.  In both cases the done handler is not called. *)
Theorem crawl_stops_when_asked (fuel : nat) (cbs : callbacks) (url : string)
    (collectedPosts : list post) (previousNames : list (option string))
    (w w1 : world) (p : post) :
  collects E url w p w1 ->
  (forall onCollected,
      cb_collectedPost cbs = Some onCollected ->
      onCollected p = Abort ->
      collectPostRecurse E (S fuel) cbs url collectedPosts previousNames w
      = (Finished, notify (CollectedPost p) w1)) /\
  (forall onFound c next,
      (forall f, cb_collectedPost cbs = Some f -> f p = Continue) ->
      findNextURL E (post_content p) (previousNames ++ [nameFromURL url])
      = Normal (Some (String c next)) ->
      cb_foundUrl cbs = Some onFound ->
      onFound (String c next) = Abort ->
      collectPostRecurse E (S fuel) cbs url collectedPosts previousNames w
      = (Finished,
         notify (FoundUrl (String c next))
           (observed (cb_collectedPost cbs) CollectedPost p w1))).
Proof.
  intros Hcol. split.
  - intros f Hh Hstop. cbn [collectPostRecurse].
    rewrite (collects_spec _ _ _ _ _ _ _ Hcol). rewrite Hh. unfold call.
    rewrite Hstop. reflexivity.
  - intros g c next Hgo Hnext Hg Hstop. cbn [collectPostRecurse].
    rewrite (collects_spec _ _ _ _ _ _ _ Hcol).
    rewrite call_continue by exact Hgo. cbv zeta. rewrite Hnext.
    cbn [try_ followable truthy]. rewrite Hg. unfold call. rewrite Hstop. reflexivity.
Qed.

(** X17: when the fetch of a post fails, the crawl writes one line to the
    page log, whose text ends in "undefined" whatever the error was (the
    error is a string and has no [message]), calls the error handler with
    the error string, and ends: the done handler is not called. *)
Theorem crawl_reports_failed_fetch (fuel : nat) (cbs : callbacks) (url : string)
    (collectedPosts : list post) (previousNames : list (option string))
    (w w1 : world) (message : string) :
  rejects E (unshorten url) w message w1 ->
  collectPostRecurse E (S fuel) cbs url collectedPosts previousNames w
  = (Finished,
     observed (cb_error cbs) Error (FetchFailure message)
       (notify (Log ("Failed at post '" +:+ url +:+ "': undefined") "error") w1)).
Proof.
  intros Hrej. cbn [collectPostRecurse].
  rewrite (collectPost_rejected _ _ _ _ _ _ _ Hrej).
  unfold seq, emit. apply call_skip.
Qed.

Lemma crawl_report_collectPostRecurse fuel cbs onCollected url acc previousNames w :
  cb_collectedPost cbs = Some onCollected ->
  crawl_report acc w (collectPostRecurse E fuel cbs url acc previousNames w).
Proof.
  intros Hh. revert url acc previousNames w.
  induction fuel as [|fuel IH]; intros url acc prev w.
  - exists []. cbn. rewrite app_nil_r. auto.
  - cbn [collectPostRecurse].
    apply (collectPost_rule E (fun w' => notifications w' = notifications w));
      try reflexivity.
    + intros p w' Hw'. rewrite Hh. unfold call at 1.
      destruct (onCollected p).
      * cbv zeta.
        destruct (findNextURL E (post_content p) (prev ++ [nameFromURL url]))
          as [nextUrl|e]; cbn [try_].
        -- destruct (followable nextUrl) as [next|].
           ++ unfold call. destruct (cb_foundUrl cbs) as [g|].
              ** destruct (g next).
                 --- destruct (IH next (acc ++ [p]) (prev ++ [nameFromURL url])
                                (notify (FoundUrl next) (notify (CollectedPost p) w')))
                       as (added & Hn & Hd).
                     exists (CollectedPost p :: FoundUrl next :: added).
                     split; [rewrite Hn; cbn; rewrite Hw', <- !app_assoc; reflexivity|].
                     destruct Hd as [Hd | Hd]; [left; exact Hd | right].
                     rewrite done_of_collected, collected_of_collected.
                     change (done_of (FoundUrl next :: added)) with (done_of added).
                     change (collected_of (FoundUrl next :: added)) with (collected_of added).
                     rewrite Hd, <- app_assoc. reflexivity.
                 --- exists [CollectedPost p; FoundUrl next]. cbn.
                     rewrite Hw', <- app_assoc. auto.
              ** destruct (IH next (acc ++ [p]) (prev ++ [nameFromURL url])
                             (notify (CollectedPost p) w')) as (added & Hn & Hd).
                 exists (CollectedPost p :: added).
                 split; [rewrite Hn; cbn; rewrite Hw', <- !app_assoc; reflexivity|].
                 destruct Hd as [Hd | Hd]; [left; exact Hd | right].
                 rewrite done_of_collected, collected_of_collected.
                 rewrite Hd, <- app_assoc. reflexivity.
           ++ rewrite call_skip. unfold observed. destruct (cb_done cbs).
              ** exists [CollectedPost p; Done (acc ++ [p])]. cbn.
                 rewrite Hw', <- app_assoc. auto.
              ** exists [CollectedPost p]. cbn. rewrite Hw'. auto.
        -- exists [CollectedPost p]. cbn. rewrite Hw'. auto.
      * exists [CollectedPost p]. cbn. rewrite Hw'. auto.
    + intros message w' Hw'. unfold seq, emit. rewrite call_skip. unfold observed.
      destruct (cb_error cbs).
      * eexists [Log _ _; Error _]. cbn. rewrite Hw', <- app_assoc. auto.
      * eexists [Log _ _]. cbn. rewrite Hw'. auto.
    + intros e w' Hw'. exists []. cbn. rewrite app_nil_r, Hw'. auto.
Qed.

(** X18: whatever the remote side answers, the done handler of a crawl is
    called at most once, and the list it gets is exactly the posts
    announced through the collected handler, in their order. *)
Theorem crawl_done_matches_collected (fuel : nat) (startUrl : string) (cbs : callbacks)
    (onCollected : post -> verdict) (w : world) :
  cb_collectedPost cbs = Some onCollected ->
  exists added,
    notifications (snd (findSeriesParts E fuel startUrl cbs w)) = notifications w ++ added /\
    (done_of added = [] \/ done_of added = [collected_of added]).
Proof.
  intros Hh. apply (crawl_report_collectPostRecurse fuel cbs onCollected startUrl [] [] w Hh).
Qed.

(** X19: the crawl follows no name twice.  When the links of the posts the
    site serves, and of the posts already in the cache, target finitely
    many names, the start URL's among them, a step budget of the number of
    these names is never used up: the crawl ends, whatever the remote side
    answers and whatever the handlers do.  Nothing is asked of markup the
    site does not serve. *)
Theorem crawl_terminates_on_finite_site (names : list (option string))
    (startUrl : string) (cbs : callbacks) (w : world) :
  (forall n url json p l h,
      responseJSON (xhr E n url) = Some json ->
      extract_post E json = Normal p ->
      l ∈ parseFromString E (post_content p) ->
      href l = Some h ->
      nameFromURL h ∈ names) ->
  (forall url json p l h,
      requestRedditJsonCache w !! url = Some json ->
      extract_post E json = Normal p ->
      l ∈ parseFromString E (post_content p) ->
      href l = Some h ->
      nameFromURL h ∈ names) ->
  nameFromURL startUrl ∈ names ->
  fst (findSeriesParts E (length names) startUrl cbs w) <> Running.
Proof.
  intros Hsite Hcache Hstart. unfold findSeriesParts.
  apply (crawl_ends_on_finite_site E names).
  - intros n url json Hj p Hp l h Hl Hh. exact (Hsite n url json p l h Hj Hp Hl Hh).
  - intros url json Hj p Hp l h Hl Hh. exact (Hcache url json p l h Hj Hp Hl Hh).
  - constructor.
  - intros x Hx. inversion Hx.
  - exact Hstart.
  - intros Hx. inversion Hx.
  - cbn. lia.
Qed.

End WithEnv.
End CrawlMore.

(** ** Further properties of index-page discovery *)

Module WikiMore.
Import Canon CanonFacts JS Engine EngineFacts Vocabulary FetchMore.

Lemma truthy_name url : truthy (nameFromURL url) = true <-> is_Some (nameFromURL url).
Proof.
  destruct (nameFromURL url) as [n|] eqn:Hn; cbn.
  - apply nameFromURL_identifier, is_identifier_spec in Hn as [Hne _].
    destruct n; [congruence|]. split; eauto.
  - split; [discriminate | intros [? ?]; discriminate].
Qed.

Lemma omap_part_cons l links :
  omap part_of_link (l :: links)
  = match part_of_link l with
    | Some p => p :: omap part_of_link links
    | None => omap part_of_link links
    end.
Proof. reflexivity. Qed.

Lemma find_parts_named links acc :
  (forall l, l ∈ links -> is_Some (href l)) ->
  find_parts links acc = Normal (acc ++ omap part_of_link links).
Proof.
  revert acc. induction links as [|l links IH]; intros acc Hall.
  - cbn. rewrite app_nil_r. reflexivity.
  - destruct (Hall l) as [h Hh]; [left|].
    assert (Hrest : forall l', l' ∈ links -> is_Some (href l'))
      by (intros l' Hl'; apply Hall; right; exact Hl').
    rewrite omap_part_cons. cbn [find_parts]. unfold name_of_link, part_of_link.
    rewrite Hh. cbn [bind fst snd].
    destruct (nameFromURL h) as [n|] eqn:Hn.
    + assert (Htr : truthy (Some n) = true).
      { rewrite <- Hn. apply truthy_name. rewrite Hn. eauto. }
      rewrite Htr, (IH _ Hrest), <- app_assoc. reflexivity.
    + cbn [truthy]. apply IH, Hrest.
Qed.

Lemma find_parts_bare links acc l :
  l ∈ links -> href l = None ->
  find_parts links acc = Throw (TypeError "null has no property match").
Proof.
  intros Hl Hh. revert acc. induction Hl as [l links | l l' links Hl IH]; intros acc.
  - cbn [find_parts]. unfold name_of_link. rewrite Hh. reflexivity.
  - cbn [find_parts]. unfold name_of_link.
    destruct (href l') as [h|]; [|reflexivity]. cbn [bind fst snd].
    destruct (truthy (nameFromURL h)); apply (IH Hh).
Qed.

(** X20: on a listing all of whose links have a target, the parts found are
    exactly the links whose target names a post, in document order, each
    with its target as URL and its text as title; the name of every part is
    a proper identifier and is the name of the part's URL. *)
Theorem find_parts_lists_named_links (links : list element) :
  (forall l, l ∈ links -> is_Some (href l)) ->
  find_parts links [] = Normal (omap part_of_link links) /\
  Forall (fun p => part_name p = nameFromURL (part_url p) /\
                   exists n, part_name p = Some n /\ is_identifier n = true)
         (omap part_of_link links).
Proof.
  intros Hall. split; [apply (find_parts_named links []), Hall|].
  clear Hall. induction links as [|l links IH]; [constructor|].
  rewrite omap_part_cons. unfold part_of_link at 1.
  destruct (href l) as [h|]; [|exact IH].
  destruct (nameFromURL h) as [n|] eqn:Hn; [|exact IH].
  constructor; [|exact IH]. cbn. split; [symmetry; exact Hn|].
  exists n. split; [reflexivity | eapply nameFromURL_identifier, Hn].
Qed.

Section WithEnv.
Context (E : Env).

Lemma wiki_listing url w w1 doc completionCallback errorCallback :
  serves_listing E url w w1 doc ->
  collectSeriesInfoFromWikiPage E url completionCallback errorCallback w
  = (try parts <- find_parts (getElementsByTagName doc "a") [];
     match parts with
     | first :: _ =>
         collectPost E (part_url first)
           (fun post =>
              completionCallback
                (Series (if String.eqb (guess_title doc) "" then post_title post
                         else VStr (guess_title doc))
                        (post_author post) parts))
           errorCallback
     | [] => skip
     end) w1.
Proof.
  intros (json & kind & data & html & Hres & Hkind & Hwiki & Hdata & Hhtml & ->).
  unfold collectSeriesInfoFromWikiPage.
  rewrite (resolves_spec _ _ _ _ _ _ _ Hres).
  rewrite Hkind. cbn [try_]. rewrite Hwiki. cbn [try_ negb].
  unfold seq, skip. rewrite Hdata. cbn [try_]. rewrite Hhtml. reflexivity.
Qed.


(** X22: when the fetch of the first part fails, the failure is the failure
    of discovery: the error callback is called with the message of the
    fetch and the completion callback is not called. *)
Theorem listing_backfill_failure (url : string) (w w1 w2 : world)
    (doc : list element) (first : part) (others : list part) (message : string) :
  serves_listing E url w w1 doc ->
  (forall l, l ∈ getElementsByTagName doc "a" -> is_Some (href l)) ->
  omap part_of_link (getElementsByTagName doc "a") = first :: others ->
  rejects E (unshorten (part_url first)) w1 message w2 ->
  forall completionCallback errorCallback,
    collectSeriesInfoFromWikiPage E url completionCallback errorCallback w
    = errorCallback message w2.
Proof.
  intros Hlist Hall Hparts Hrej k e.
  rewrite (wiki_listing _ _ _ _ _ _ Hlist).
  rewrite (find_parts_named _ [] Hall). cbn [app try_]. rewrite Hparts.
  rewrite (collectPost_rejected _ _ _ _ _ _ _ Hrej). reflexivity.
Qed.

(** X23: a link without [href] anywhere in the listing makes discovery
    throw, whatever the other links are: the exception escapes and neither
    callback is called. *)
Theorem listing_with_bare_link_escapes (url : string) (w w1 : world)
    (doc : list element) (l : element) :
  serves_listing E url w w1 doc ->
  l ∈ getElementsByTagName doc "a" ->
  href l = None ->
  forall completionCallback errorCallback,
    collectSeriesInfoFromWikiPage E url completionCallback errorCallback w
    = (Uncaught (TypeError "null has no property match"), w1).
Proof.
  intros Hlist Hl Hh k e.
  rewrite (wiki_listing _ _ _ _ _ _ Hlist).
  rewrite (find_parts_bare _ [] l Hl Hh). reflexivity.
Qed.

End WithEnv.
End WikiMore.

(** ** Further properties of the event loop *)

Module TimingMore.
Import Engine Timing TimingFacts Vocabulary.

Lemma enqueue_split due t q :
  due_sorted q ->
  exists q1 q2,
    q = q1 ++ q2 /\
    enqueue due t q = q1 ++ (due, t) :: q2 /\
    Forall (fun x => (fst x <= due)%Z) q1 /\
    Forall (fun x => (due < fst x)%Z) q2.
Proof.
  induction q as [|[d t'] q IH]; intros Hs.
  - exists [], []. repeat split; constructor.
  - cbn [enqueue]. destruct Hs as [Hall Hs]. destruct (Z.leb_spec d due) as [Hle | Hlt].
    + destruct (IH Hs) as (q1 & q2 & -> & He & H1 & H2).
      exists ((d, t') :: q1), q2. rewrite He. repeat split; auto.
    + exists [], ((d, t') :: q). repeat split; auto.
      constructor; [exact Hlt|]. eapply Forall_impl; [exact Hall|].
      intros y Hy. cbn in *. lia.
Qed.

Lemma due_sorted_insert q1 q2 due t :
  due_sorted (q1 ++ q2) ->
  Forall (fun x => (fst x <= due)%Z) q1 ->
  Forall (fun x => (due < fst x)%Z) q2 ->
  due_sorted (q1 ++ (due, t) :: q2).
Proof.
  induction q1 as [|x q1 IH]; intros Hs H1 H2.
  - cbn in *. split; [|exact Hs]. eapply Forall_impl; [exact H2|]. cbn. intros; lia.
  - cbn in *. destruct Hs as [Hall Hs]. apply Forall_cons in H1 as [Hx H1].
    split; [|apply IH; assumption].
    apply Forall_app in Hall as [Ha Hb]. apply Forall_app. split; [exact Ha|].
    constructor; [exact Hx | exact Hb].
Qed.

(** A new task joins a queue ordered by due time behind every task due
    no later than itself and before every task due later: the queue stays
    ordered, and tasks due at the same time run in the order they were
    set. *)
Theorem enqueue_keeps_order (due : Z) (t : macrotask) (q : list (Z * macrotask)) :
  due_sorted q ->
  due_sorted (enqueue due t q) /\
  exists q1 q2,
    q = q1 ++ q2 /\
    enqueue due t q = q1 ++ (due, t) :: q2 /\
    Forall (fun x => (fst x <= due)%Z) q1 /\
    Forall (fun x => (due < fst x)%Z) q2.
Proof.
  intros Hs. destruct (enqueue_split due t q Hs) as (q1 & q2 & Hq & He & H1 & H2).
  split; [|exists q1, q2; auto].
  rewrite He. apply due_sorted_insert; [rewrite <- Hq; exact Hs | exact H1 | exact H2].
Qed.

Lemma enqueue_sorted due t q : due_sorted q -> due_sorted (enqueue due t q).
Proof.
  intros Hs. destruct (enqueue_split due t q Hs) as (q1 & q2 & Hq & He & H1 & H2).
  rewrite He. apply due_sorted_insert; [rewrite <- Hq; exact Hs | exact H1 | exact H2].
Qed.

Lemma enqueue_elem due t q x :
  x ∈ enqueue due t q -> x = (due, t) \/ x ∈ q.
Proof.
  induction q as [|[d t'] q IH]; cbn [enqueue].
  - intros Hx. apply list_elem_of_singleton in Hx. auto.
  - destruct (d <=? due)%Z; intros Hx; apply elem_of_cons in Hx as [-> | Hx].
    + right. left.
    + destruct (IH Hx) as [-> | Hin]; [left; reflexivity | right; right; exact Hin].
    + left. reflexivity.
    + right. exact Hx.
Qed.

Lemma call_in_order old url st :
  in_order old st -> in_order old (requestRedditJSON_call url st).
Proof.
  intros [Hs Hin]. split; cbn.
  - apply enqueue_sorted, Hs.
  - intros x Hx. apply enqueue_elem in Hx as [-> | Hx]; [|apply Hin, Hx].
    right. cbn. pose proof (timeout_delay_nonneg (lastRequest st) (interval st) (now st)).
    lia.
Qed.

Lemma call_now url st : now (requestRedditJSON_call url st) = now st.
Proof. reflexivity. Qed.

Lemma calls_in_order old urls st :
  in_order old st ->
  in_order old (fold_left (fun acc next => requestRedditJSON_call next acc) urls st) /\
  now (fold_left (fun acc next => requestRedditJSON_call next acc) urls st) = now st.
Proof.
  revert st. induction urls as [|u urls IH]; intros st H; [auto|].
  cbn [fold_left]. destruct (IH _ (call_in_order old u st H)) as [H1 H2].
  split; [exact H1 | rewrite H2; reflexivity].
Qed.

Lemma run_task_in_order latency follow t st :
  due_sorted (queue st) ->
  now (run_task latency follow t st) = now st /\
  in_order (queue st) (run_task latency follow t st).
Proof.
  intros Hs. destruct t as [url | url readyState]; cbn [run_task].
  - split; [reflexivity|]. split; cbn.
    + repeat apply enqueue_sorted. exact Hs.
    + intros x Hx.
      repeat (apply enqueue_elem in Hx as [-> | Hx]; [right; cbn; lia|]).
      left. exact Hx.
  - destruct (Nat.eqb readyState 4).
    + match goal with |- context [fold_left ?f ?l ?s] =>
        destruct (calls_in_order (queue st) l s) as [Hord Hnow] end.
      { split; [exact Hs | intros x Hx; left; exact Hx]. }
      split; [rewrite Hnow; reflexivity | exact Hord].
    + split; [reflexivity|]. split; [exact Hs | intros x Hx; left; exact Hx].
Qed.

(** The event loop keeps its queue ordered and never runs a task
    early: after a step the clock stands at or past the due time of the
    task just run and has not gone back, and whatever the step has set is
    due no earlier than the clock. *)
Theorem step_respects_due_times (latency : string -> nat)
    (follow : string -> list string) (st st' : loop) (due : Z) (t : macrotask)
    (q : list (Z * macrotask)) :
  due_sorted (queue st) ->
  queue st = (due, t) :: q ->
  step latency follow st = Some st' ->
  (now st <= now st')%Z /\
  (due <= now st')%Z /\
  due_sorted (queue st') /\
  forall x, x ∈ queue st' -> x ∈ q \/ (now st' <= fst x)%Z.
Proof.
  intros Hs Hq Hstep. unfold step in Hstep. rewrite Hq in Hstep.
  injection Hstep as <-. rewrite Hq in Hs. destruct Hs as [_ Hs].
  destruct (run_task_in_order latency follow t
              (Loop (Z.max (now st) due) (lastRequest st) (interval st) q
                    (begun st) (completed st)) Hs) as (Hnow & Hsorted & Hin).
  rewrite Hnow. cbn [now queue] in *. repeat split; try lia; [exact Hsorted|].
  intros x Hx. specialize (Hin x Hx). rewrite Hnow in Hin. exact Hin.
Qed.

End TimingMore.

(** ** Properties of the parts table *)

Module PageFacts.
Import Canon CanonFacts JS Engine Page Vocabulary.

Lemma elem_remove token c l :
  c ∈ classList_remove token l <-> c ∈ l /\ c <> token.
Proof.
  unfold classList_remove. rewrite !list_elem_of_In, List.filter_In.
  rewrite negb_true_iff, String.eqb_neq. reflexivity.
Qed.

Lemma contains_elem token l : classList_contains token l = true <-> token ∈ l.
Proof.
  unfold classList_contains. rewrite existsb_exists, list_elem_of_In. split.
  - intros (x & Hx & He). apply String.eqb_eq in He. subst. exact Hx.
  - intros H. exists token. split; [exact H | apply String.eqb_refl].
Qed.

Lemma remove_absent token l : token ∉ l -> classList_remove token l = l.
Proof.
  induction l as [|c l IH]; intros H; [reflexivity|].
  cbn. destruct (String.eqb_spec c token) as [-> | Hne].
  - exfalso. apply H. left.
  - cbn. f_equal. apply IH. intros Hin. apply H. right. exact Hin.
Qed.

Lemma remove_app token a b :
  classList_remove token (a ++ b) = classList_remove token a ++ classList_remove token b.
Proof. unfold classList_remove. apply List.filter_app. Qed.

Lemma add_absent token l : token ∉ l -> classList_add token l = l ++ [token].
Proof.
  intros H. unfold classList_add.
  destruct (classList_contains token l) eqn:Hc; [|reflexivity].
  apply contains_elem in Hc. contradiction.
Qed.

Lemma is_state_class_spec c :
  is_state_class c = true <-> c = "success" \/ c = "warning" \/ c = "danger".
Proof.
  unfold is_state_class. rewrite !orb_true_iff, !String.eqb_eq. tauto.
Qed.

Lemma elem_cleared c l : c ∈ cleared l <-> c ∈ l /\ is_state_class c = false.
Proof.
  unfold cleared. rewrite !elem_remove. split.
  - intros (((Hin & Hd) & Hw) & Hs). split; [exact Hin|].
    destruct (is_state_class c) eqn:Hc; [|reflexivity].
    apply is_state_class_spec in Hc. intuition.
  - intros (Hin & Hc). repeat split; auto; intros ->; discriminate.
Qed.

Lemma cleared_free c l : is_state_class c = true -> c ∉ cleared l.
Proof. intros Hc Hin. apply elem_cleared in Hin as [_ Hf]. congruence. Qed.

Lemma cleared_idem l : cleared (cleared l) = cleared l.
Proof.
  unfold cleared at 1.
  rewrite (remove_absent "danger") by (apply cleared_free; reflexivity).
  rewrite (remove_absent "warning") by (apply cleared_free; reflexivity).
  apply remove_absent, cleared_free. reflexivity.
Qed.

Lemma cleared_snoc l c :
  is_state_class c = true -> cleared (cleared l ++ [c]) = cleared l.
Proof.
  intros Hc. unfold cleared at 1. rewrite !remove_app.
  fold (cleared (cleared l)). rewrite cleared_idem.
  apply is_state_class_spec in Hc as [-> | [-> | ->]]; cbn; apply app_nil_r.
Qed.

(** The classes [updateRowState] leaves: the other classes, then the state. *)
Lemma updateRowState_classes r state :
  row_classes (updateRowState r state)
  = cleared (row_classes r) ++ (if is_state_class state then [state] else []).
Proof.
  unfold updateRowState, is_state_class. cbn [row_classes]. fold (cleared (row_classes r)).
  destruct (String.eqb_spec state "success") as [-> | H1];
    [cbn; apply add_absent, cleared_free; reflexivity|].
  destruct (String.eqb_spec state "warning") as [-> | H2];
    [cbn; apply add_absent, cleared_free; reflexivity|].
  destruct (String.eqb_spec state "danger") as [-> | H3];
    [cbn; apply add_absent, cleared_free; reflexivity|].
  cbn. rewrite app_nil_r. reflexivity.
Qed.

Lemma updateRowState_cleared r state :
  cleared (row_classes (updateRowState r state)) = cleared (row_classes r).
Proof.
  rewrite updateRowState_classes. destruct (is_state_class state) eqn:Hs.
  - apply cleared_snoc, Hs.
  - rewrite app_nil_r. apply cleared_idem.
Qed.

Lemma row_eq r r' :
  row_title r = row_title r' -> row_url r = row_url r' -> row_link r = row_link r' ->
  row_classes r = row_classes r' -> r = r'.
Proof. destruct r, r'. cbn. intros -> -> -> ->. reflexivity. Qed.

(** X24: a row carries at most one of the three state classes, the one set
    last: setting a state after another gives the row that setting it alone
    gives, the state classes of the row are exactly the state set (none for
    another word such as "none"), and the other classes are untouched. *)
Theorem updateRowState_last_state_wins (r : row) (before state : string) :
  updateRowState (updateRowState r before) state = updateRowState r state /\
  (forall c, is_state_class c = true ->
             (c ∈ row_classes (updateRowState r state) <-> c = state)) /\
  (forall c, is_state_class c = false ->
             (c ∈ row_classes (updateRowState r state) <-> c ∈ row_classes r)).
Proof.
  split; [|split].
  - apply row_eq; try reflexivity.
    rewrite (updateRowState_classes (updateRowState r before) state).
    rewrite updateRowState_cleared, (updateRowState_classes r state). reflexivity.
  - intros c Hc. rewrite updateRowState_classes, elem_of_app, elem_cleared.
    destruct (is_state_class state) eqn:Hs.
    + rewrite list_elem_of_singleton. split; [intros [[_ H] | H]; congruence | auto].
    + split; [intros [[_ H] | H]; [congruence | inversion H] | intros ->; congruence].
  - intros c Hc. rewrite updateRowState_classes, elem_of_app, elem_cleared.
    destruct (is_state_class state) eqn:Hs.
    + rewrite list_elem_of_singleton. split; [intros [[H _] | ->]; [exact H | congruence] | auto].
    + split; [intros [[H _] | H]; [exact H | inversion H] | auto].
Qed.

Lemma find_row_spec name rows i :
  match find_row name rows i with
  | Some k =>
      exists j r, k = i + j /\ rows !! j = Some r /\ name = nameFromURL (row_url r) /\
                  forall j' r', j' < j -> rows !! j' = Some r' ->
                                name <> nameFromURL (row_url r')
  | None => forall r, r ∈ rows -> name <> nameFromURL (row_url r)
  end.
Proof.
  revert i. induction rows as [|r rows IH]; intros i; cbn [find_row].
  - intros r Hr. inversion Hr.
  - destruct (bool_decide (name = nameFromURL (row_url r))) eqn:Hd.
    + apply bool_decide_eq_true in Hd. exists 0, r.
      repeat split; [lia | exact Hd | intros; lia].
    + apply bool_decide_eq_false in Hd. specialize (IH (S i)).
      destruct (find_row name rows (S i)) as [k|].
      * destruct IH as (j & r' & -> & Hj & Hn & Hfirst).
        exists (S j), r'. repeat split; [lia | exact Hj | exact Hn|].
        intros [|j'] r'' Hlt Hl; cbn in Hl; [congruence|].
        apply (Hfirst j'); [lia | exact Hl].
      * intros r' Hr'. apply elem_of_cons in Hr' as [-> | Hr']; [exact Hd | apply IH, Hr'].
Qed.

(** X25: [getRowForPart] returns the first row whose URL has the same name
    as the given URL, two URLs without a name counting as the same; it
    returns [null] exactly when no row has that name. *)
Theorem getRowForPart_finds_first (url : string) (table : list row) :
  (forall i,
      getRowForPart url table = Some i ->
      exists r, table !! i = Some r /\
                nameFromURL (row_url r) = nameFromURL url /\
                forall j r', j < i -> table !! j = Some r' ->
                             nameFromURL (row_url r') <> nameFromURL url) /\
  (getRowForPart url table = None <-> nameFromURL url ∉ row_names table).
Proof.
  unfold getRowForPart. pose proof (find_row_spec (nameFromURL url) table 0) as H.
  destruct (find_row (nameFromURL url) table 0) as [k|].
  - destruct H as (j & r & -> & Hj & Hn & Hfirst). split.
    + intros i [= <-]. exists r. cbn. repeat split; [exact Hj | auto|].
      intros j' r' Hlt Hl Heq. eapply Hfirst; eauto.
    + split; [discriminate|]. intros Hno. exfalso. apply Hno.
      unfold row_names. rewrite Hn. apply list_elem_of_fmap. exists r.
      split; [reflexivity | eapply list_elem_of_lookup_2, Hj].
  - split; [discriminate|]. split; [|reflexivity]. intros _ Hin.
    unfold row_names in Hin. apply list_elem_of_fmap in Hin as (r & Hr & Hin).
    apply (H r Hin Hr).
Qed.

Lemma find_row_ext name rows rows' i :
  row_names rows = row_names rows' -> find_row name rows i = find_row name rows' i.
Proof.
  revert rows' i. induction rows as [|r rows IH]; intros [|r' rows'] i H;
    try discriminate; [reflexivity|].
  cbn in H. injection H as Hr Hrest. cbn [find_row]. rewrite Hr.
  destruct (bool_decide _); [reflexivity | apply IH, Hrest].
Qed.

Lemma find_row_app name a b i :
  find_row name (a ++ b) i
  = match find_row name a i with
    | Some k => Some k
    | None => find_row name b (i + length a)
    end.
Proof.
  revert i. induction a as [|r a IH]; intros i; cbn [app find_row length].
  - rewrite Nat.add_0_r. reflexivity.
  - destruct (bool_decide _); [reflexivity|].
    rewrite IH. replace (S i + length a) with (i + S (length a)) by lia. reflexivity.
Qed.

Lemma find_row_absent name rows i :
  find_row name rows i = None <-> name ∉ row_names rows.
Proof.
  pose proof (find_row_spec name rows i) as H.
  destruct (find_row name rows i) as [k|].
  - destruct H as (j & r & _ & Hj & Hn & _). split; [discriminate|].
    intros Hno. exfalso. apply Hno. unfold row_names. rewrite Hn.
    apply list_elem_of_fmap. exists r. split; [reflexivity|].
    eapply list_elem_of_lookup_2, Hj.
  - split; [|reflexivity]. intros _ Hin.
    unfold row_names in Hin. apply list_elem_of_fmap in Hin as (r & Hr & Hin).
    apply (H r Hin Hr).
Qed.

Lemma state_shows_cache r url w :
  "success" ∈ row_classes (updateRowState r (cached_state url w))
  <-> isNameCached (nameFromURL url) w = true.
Proof.
  rewrite updateRowState_classes, elem_of_app, elem_cleared. unfold cached_state.
  destruct (isNameCached (nameFromURL url) w); cbn.
  - split; [reflexivity|]. intros _. right. left.
  - split; [|discriminate]. intros [[_ H] | H]; [discriminate | inversion H].
Qed.

Lemma row_names_addPartToList template p w table :
  row_names (addPartToList template p w table)
  = row_names table ++ [nameFromURL (part_url p)].
Proof. unfold addPartToList, row_names. rewrite map_app. reflexivity. Qed.

(** X26: [addOrUpdatePartInList] keeps one row per name.  In a table whose
    rows have distinct names it changes the row of the part's name or, when
    there is none, appends one row; afterwards the names are still
    distinct, the row found for the part carries the part's title, and it
    is marked a success exactly when the part's post is cached. *)
Theorem addOrUpdatePartInList_one_row_per_name (template : row) (p : part)
    (w : world) (table : list row) :
  NoDup (row_names table) ->
  NoDup (row_names (addOrUpdatePartInList template p w table)) /\
  (row_names (addOrUpdatePartInList template p w table) = row_names table \/
   ((nameFromURL (part_url p) ∉ row_names table) /\
    row_names (addOrUpdatePartInList template p w table)
    = row_names table ++ [nameFromURL (part_url p)])) /\
  exists i r,
    getRowForPart (part_url p) (addOrUpdatePartInList template p w table) = Some i /\
    (addOrUpdatePartInList template p w table) !! i = Some r /\
    row_title r = part_title p /\
    ("success" ∈ row_classes r <-> isNameCached (nameFromURL (part_url p)) w = true).
Proof.
  intros Hnd. unfold addOrUpdatePartInList, getRowForPart.
  pose proof (find_row_spec (nameFromURL (part_url p)) table 0) as Hspec.
  destruct (find_row (nameFromURL (part_url p)) table 0) as [k|] eqn:Hfind.
  - destruct Hspec as (j & r & -> & Hj & Hn & _). cbn [Nat.add]. rewrite Hj.
    set (r' := updateRowState (Row (part_title p) (row_url r) (row_link r) (row_classes r))
                 (cached_state (part_url p) w)).
    assert (Hnames : row_names (<[j := r']> table) = row_names table).
    { unfold row_names. rewrite list_fmap_insert. apply list_insert_id.
      rewrite list_lookup_fmap, Hj. reflexivity. }
    rewrite Hnames. split; [exact Hnd|]. split; [left; reflexivity|].
    exists j, r'. split; [|split; [|split]].
    + rewrite (find_row_ext _ _ table 0 Hnames). exact Hfind.
    + apply list_lookup_insert_eq. eapply lookup_lt_Some, Hj.
    + reflexivity.
    + apply state_shows_cache.
  - assert (Hno : nameFromURL (part_url p) ∉ row_names table)
      by (apply (find_row_absent _ table 0), Hfind).
    rewrite row_names_addPartToList. split; [|split].
    + apply NoDup_app. repeat split; [exact Hnd | | apply NoDup_singleton].
      intros x Hx Hx'. apply list_elem_of_singleton in Hx'. congruence.
    + right. split; [exact Hno | reflexivity].
    + unfold addPartToList. rewrite find_row_app, Hfind. cbn [find_row Nat.add].
      rewrite bool_decide_eq_true_2 by reflexivity.
      eexists _, _. split; [reflexivity|]. split; [|split].
      * apply list_lookup_middle. reflexivity.
      * reflexivity.
      * apply state_shows_cache.
Qed.

(** X27: parts listed in the table are read back as they were.  After
    [addPartToList] has been called on each part of a list whose names are
    the names of their URLs, as index-page discovery delivers them,
    [getPartsFromList] returns the parts of the table as it was, followed by
    the listed parts, unchanged and in order. *)
Theorem listed_parts_read_back (template : row) (w : world) (parts : list part)
    (table : list row) :
  Forall (fun p => part_name p = nameFromURL (part_url p)) parts ->
  getPartsFromList (fold_left (fun t p => addPartToList template p w t) parts table)
  = getPartsFromList table ++ parts.
Proof.
  revert table. induction parts as [|p parts IH]; intros table Hall.
  - cbn. rewrite app_nil_r. reflexivity.
  - apply Forall_cons in Hall as [Hp Hall]. cbn [fold_left]. rewrite (IH _ Hall).
    unfold addPartToList, getPartsFromList. rewrite map_app, <- app_assoc. cbn.
    rewrite <- Hp. destruct p. reflexivity.
Qed.

End PageFacts.

(** ** The further properties on the remote site *)

Module MoreWitnesses.
Import Canon CanonFacts JS Engine EngineFacts Timing TimingFacts Page Vocabulary.
Import Scenario Cases FetchMore Invariants BatchMore CrawlMore WikiMore TimingMore PageFacts.

Lemma fetched_resolves url json w :
  requestRedditJsonCache w !! url = None ->
  status (next_response env2 url w) = 200%Z ->
  responseJSON (next_response env2 url w) = Some json ->
  resolves env2 url w json (fetched url json w).
Proof. intros H1 H2 H3. right. repeat split; assumption. Qed.

Lemma failed_rejects url w :
  requestRedditJsonCache w !! url = None ->
  status (next_response env2 url w) <> 200%Z ->
  rejects env2 url w (retrieval_error url (next_response env2 url w))
    (snd (exchange env2 url w)).
Proof. intros H1 H2. repeat split; assumption. Qed.

Lemma first_collects :
  collects env2 "https://redd.it/ABC123" start post_first
    (fetched url_first payload_first start).
Proof.
  exists payload_first. split; [|vm_compute; reflexivity].
  apply (fetched_resolves url_first); vm_compute; reflexivity.
Qed.

Lemma fifth_collects :
  collects env2 "https://redd.it/mno345" start post_fifth
    (fetched url_fifth payload_fifth start).
Proof.
  exists payload_fifth. split; [|vm_compute; reflexivity].
  apply (fetched_resolves url_fifth); vm_compute; reflexivity.
Qed.

Lemma collected_post_is_shared_witness :
  isNameCached (nameFromURL "https://www.reddit.com/r/HFY/comments/abc123/chapter_one/")
    (fetched url_first payload_first start) = true /\
  collectPost env2 "https://www.reddit.com/r/HFY/comments/abc123/chapter_one/"
    on_collected on_failed (fetched url_first payload_first start)
  = on_collected post_first (fetched url_first payload_first start).
Proof.
  destruct (collected_post_is_shared env2 "https://redd.it/ABC123"
              "https://www.reddit.com/r/HFY/comments/abc123/chapter_one/"
              start (fetched url_first payload_first start) post_first
              first_collects eq_refl) as [H1 H2].
  split; [exact H1 | apply H2].
Defined.

Lemma unparseable_body_escapes_witness :
  requestRedditJSONCached env2 url_broken on_resolved on_failed start
  = (Uncaught (SyntaxError "JSON.parse"), snd (exchange env2 url_broken start)) /\
  isCached url_broken (snd (exchange env2 url_broken start)) = false.
Proof.
  destruct (unparseable_body_escapes env2 url_broken start) as [H1 H2];
    [reflexivity | vm_compute; reflexivity | vm_compute; reflexivity|].
  split; [apply H1 | exact H2].
Defined.

Lemma collectPost_without_name_asks_for_undefined_witness :
  map fst (requests (snd (collectPost env2 "https://example.com/sequel"
                            on_collected on_failed start)))
  = [undefined_post_url +:+ ".json"].
Proof.
  apply (collectPost_without_name_asks_for_undefined env2 "https://example.com/sequel"
           start on_collected on_failed
           (fun r => map fst (requests (snd r)) = [undefined_post_url +:+ ".json"]));
    [reflexivity | reflexivity | | | ]; intros ? w' H; exact H.
Defined.

Lemma post_without_markup_escapes_witness :
  collectPost env2 "https://redd.it/lnk111" on_collected on_failed start
  = (Uncaught (TypeError "html.replace is not a function"),
     fetched url_linkpost payload_linkpost start).
Proof.
  apply (post_without_markup_escapes env2 "https://redd.it/lnk111" start
           (fetched url_linkpost payload_linkpost start) payload_linkpost
           data_linkpost VNull).
  - apply (fetched_resolves url_linkpost); vm_compute; reflexivity.
  - vm_compute; reflexivity.
  - vm_compute; reflexivity.
  - discriminate.
Defined.

Lemma start_well_spaced : well_spaced 2000 start.
Proof. repeat split; cbn; try lia; constructor. Qed.

Lemma runs_keep_requests_spaced_witness :
  well_spaced 2000 (snd (collectPartPosts env2 [part_one; part_two; part_three]
                           observers start)) /\
  begin_times (snd (collectPartPosts env2 [part_one; part_two; part_three]
                      observers start)) = [5000%Z; 7080%Z].
Proof.
  destruct (runs_keep_requests_spaced env2 2000 start start_well_spaced) as [H _].
  split; [apply H | vm_compute; reflexivity].
Defined.

Lemma runs_only_add_witness :
  grown_from warm (snd (findSeriesParts env2 4 url_fifth observers warm)).
Proof. destruct (runs_only_add env2 warm) as [_ H]. apply H. Defined.

Lemma warm_cached :
  Forall2 (cached_post env2 warm) [part_one; part_three] [post_first; post_third].
Proof.
  repeat constructor.
  - exists payload_first. split; vm_compute; reflexivity.
  - exists payload_third. split; vm_compute; reflexivity.
Qed.

Lemma observers_go_on posts : goes_on observers posts.
Proof. apply Forall_forall. intros p _ f [= <-]. reflexivity. Qed.

Lemma batch_from_cache_witness :
  collectPartPosts env2 [part_one; part_three] observers warm
  = (Finished,
     notify (Done [with_title post_first "One"; with_title post_third "Three"])
       (notify (CollectedPost (with_title post_third "Three"))
          (notify (CollectedPost (with_title post_first "One")) warm))) /\
  requests (snd (collectPartPosts env2 [part_one; part_three] observers warm))
  = requests warm.
Proof.
  destruct (batch_from_cache env2 [part_one; part_three] [post_first; post_third]
              observers warm warm_cached (observers_go_on _)) as [H1 H2].
  split; [exact H1 | rewrite H1; exact H2].
Defined.

Lemma batch_stops_at_first_failure_witness :
  collectPartPosts env2 [part_one; part_two; part_three] observers warm
  = (Finished,
     notify (Error (PartFailure
                      (retrieval_error url_second
                         (next_response env2 url_second
                            (notify (CollectedPost (with_title post_first "One")) warm)))
                      part_two))
       (snd (exchange env2 url_second
               (notify (CollectedPost (with_title post_first "One")) warm)))).
Proof.
  apply (batch_stops_at_first_failure env2 [part_one] [part_three] part_two
           [post_first] observers warm).
  - repeat constructor. exists payload_first. split; vm_compute; reflexivity.
  - apply observers_go_on.
  - apply (failed_rejects url_second); vm_compute; [reflexivity | discriminate].
Defined.


Lemma batch_done_matches_collected_witness :
  exists posts last,
    notifications (snd (collectPartPosts env2 [part_one; part_three] observers start))
    = notifications start ++ map CollectedPost posts ++ last /\
    (last = [] \/
     (last = [Done posts] /\ length posts = length [part_one; part_three]) \/
     (exists message p,
         last = [Error (PartFailure message p)] /\
         [part_one; part_three] !! length posts = Some p)) /\
    map post_title posts
    = map (fun p => VStr (part_title p)) (take (length posts) [part_one; part_three]).
Proof.
  apply (batch_done_matches_collected env2 [part_one; part_three] observers
           (fun _ => Continue) start).
  reflexivity.
Defined.

Lemma findNextURL_returns_first_fresh_match_witness :
  exists before link after,
    getElementsByTagName (parseFromString env2 body_fifth) "a" = before ++ link :: after /\
    Forall (passed_over next_pattern [Some "mno345"]) before /\
    next_pattern (textContent link) = true /\
    href link = Some "https://redd.it/ghi789" /\
    nameFromURL "https://redd.it/ghi789" ∉ [Some "mno345"].
Proof.
  pose proof (findNextURL_returns_first_fresh_match env2 body_fifth [Some "mno345"]
                next_pattern eq_refl) as H.
  cbv zeta in H. destruct H as [H _]. apply H. vm_compute. reflexivity.
Defined.

Lemma bare_matching_link_breaks_crawl_witness :
  collectPostRecurse env2 1 observers "https://redd.it/jkl012" [] [] start
  = (Uncaught (TypeError "null has no property match"),
     notify (CollectedPost post_fourth) (fetched url_fourth payload_fourth start)).
Proof.
  apply (bare_matching_link_breaks_crawl env2 0 observers "https://redd.it/jkl012" [] []
           start (fetched url_fourth payload_fourth start) post_fourth next_pattern
           [] [] (Element "a" None "Next")).
  - exists payload_fourth. split; [|vm_compute; reflexivity].
    apply (fetched_resolves url_fourth); vm_compute; reflexivity.
  - intros f [= <-]. reflexivity.
  - reflexivity.
  - vm_compute. reflexivity.
  - constructor.
  - reflexivity.
  - reflexivity.
Defined.

Lemma crawl_stops_when_asked_witness :
  collectPostRecurse env2 1 stop_at_post "https://redd.it/mno345" [] [] start
  = (Finished, notify (CollectedPost post_fifth) (fetched url_fifth payload_fifth start)) /\
  collectPostRecurse env2 1 stop_at_link "https://redd.it/mno345" [] [] start
  = (Finished,
     notify (FoundUrl "https://redd.it/ghi789")
       (notify (CollectedPost post_fifth) (fetched url_fifth payload_fifth start))).
Proof.
  split.
  - destruct (crawl_stops_when_asked env2 0 stop_at_post "https://redd.it/mno345" [] []
                start (fetched url_fifth payload_fifth start) post_fifth fifth_collects)
      as [H _].
    apply (H (fun _ => Abort)); reflexivity.
  - destruct (crawl_stops_when_asked env2 0 stop_at_link "https://redd.it/mno345" [] []
                start (fetched url_fifth payload_fifth start) post_fifth fifth_collects)
      as [_ H].
    apply (H (fun _ => Abort) "h"%char "ttps://redd.it/ghi789").
    + intros f [= <-]. reflexivity.
    + vm_compute. reflexivity.
    + reflexivity.
    + reflexivity.
Defined.

Lemma crawl_reports_failed_fetch_witness :
  collectPostRecurse env2 1 observers "https://redd.it/def456" [] [] start
  = (Finished,
     notify (Error (FetchFailure
                      (retrieval_error url_second (next_response env2 url_second start))))
       (notify (Log "Failed at post 'https://redd.it/def456': undefined" "error")
          (snd (exchange env2 url_second start)))).
Proof.
  apply (crawl_reports_failed_fetch env2 0 observers "https://redd.it/def456" [] [] start).
  apply (failed_rejects url_second); vm_compute; [reflexivity | discriminate].
Defined.

Lemma crawl_done_matches_collected_witness :
  exists added,
    notifications (snd (findSeriesParts env2 4 "https://redd.it/mno345" observers start))
    = notifications start ++ added /\
    (done_of added = [] \/ done_of added = [collected_of added]).
Proof.
  apply (crawl_done_matches_collected env2 4 "https://redd.it/mno345" observers
           (fun _ => Continue) start).
  reflexivity.
Defined.

Ltac walk_links H :=
  repeat (apply elem_of_cons in H as [-> | H];
          [cbn in *; try discriminate;
           match goal with Hh : Some _ = Some _ |- _ => injection Hh as <- end;
           vm_compute; repeat constructor|]);
  inversion H.

Ltac served_links Hp Hl :=
  vm_compute in Hp; try discriminate; injection Hp as <-;
  vm_compute in Hl; walk_links Hl.

Lemma crawl_terminates_on_finite_site_witness :
  fst (findSeriesParts env3 (length site_names) url_fifth observers warm) <> Running.
Proof.
  apply (crawl_terminates_on_finite_site env3 site_names url_fifth observers warm).
  - intros n url json p l h Hj Hp Hl Hh.
    cbn [xhr env3] in Hj. unfold site2, site in Hj.
    repeat match type of Hj with
           | context [if ?b then _ else _] => destruct b
           end;
      cbn [responseJSON] in Hj; try discriminate; injection Hj as <-;
      served_links Hp Hl.
  - intros url json p l h Hj Hp Hl Hh.
    unfold warm, fetched, exchange in Hj.
    cbn [snd requestRedditJsonCache cache_set] in Hj.
    apply lookup_insert_Some in Hj as [[_ <-] | [_ Hj]]; [served_links Hp Hl|].
    apply lookup_insert_Some in Hj as [[_ <-] | [_ Hj]]; [served_links Hp Hl|].
    cbn in Hj. rewrite lookup_empty in Hj. discriminate.
  - vm_compute. repeat constructor.
Defined.

Lemma find_parts_lists_named_links_witness :
  find_parts listing_links [] = Normal listed_parts.
Proof.
  destruct (find_parts_lists_named_links listing_links) as [H _].
  - intros l Hl. unfold listing_links in Hl.
    repeat (apply elem_of_cons in Hl as [-> | Hl]; [eexists; reflexivity|]).
    inversion Hl.
  - rewrite H. vm_compute. reflexivity.
Defined.

Lemma listing_served url html :
  requestRedditJsonCache start !! url = None ->
  status (next_response env2 url start) = 200%Z ->
  responseJSON (next_response env2 url start) = Some (wikipage html) ->
  serves_listing env2 url start (fetched url (wikipage html) start) (documents2 html).
Proof.
  intros H1 H2 H3.
  exists (wikipage html), (VStr "wikipage"), (obj [("content_html", VStr html)]), html.
  split; [apply fetched_resolves; assumption|].
  repeat split; vm_compute; reflexivity.
Qed.

Lemma links_have_targets (links : list element) :
  forallb (fun l => bool_decide (is_Some (href l))) links = true ->
  forall l, l ∈ links -> is_Some (href l).
Proof.
  intros H l Hl. rewrite forallb_forall in H.
  apply list_elem_of_In in Hl. apply H in Hl. apply bool_decide_eq_true in Hl. exact Hl.
Qed.


Lemma listing_backfill_failure_witness :
  collectSeriesInfoFromWikiPage env2 url_lost on_completed on_failed start
  = on_failed
      (retrieval_error url_second
         (next_response env2 url_second (fetched url_lost (wikipage html_lost) start)))
      (snd (exchange env2 url_second (fetched url_lost (wikipage html_lost) start))).
Proof.
  apply (listing_backfill_failure env2 url_lost start
           (fetched url_lost (wikipage html_lost) start)
           (snd (exchange env2 url_second (fetched url_lost (wikipage html_lost) start)))
           (documents2 html_lost)
           (Part (Some "def456") "https://redd.it/def456" "Part 2") []).
  - apply listing_served; vm_compute; reflexivity.
  - apply links_have_targets. vm_compute. reflexivity.
  - vm_compute. reflexivity.
  - apply (failed_rejects url_second); vm_compute; [reflexivity | discriminate].
Defined.

Lemma listing_with_bare_link_escapes_witness :
  collectSeriesInfoFromWikiPage env2 url_bare on_completed on_failed start
  = (Uncaught (TypeError "null has no property match"),
     fetched url_bare (wikipage html_bare) start).
Proof.
  apply (listing_with_bare_link_escapes env2 url_bare start
           (fetched url_bare (wikipage html_bare) start) (documents2 html_bare)
           (Element "a" None "Top")).
  - apply listing_served; vm_compute; reflexivity.
  - vm_compute. repeat constructor.
  - reflexivity.
Defined.

Lemma pending_sorted : due_sorted pending.
Proof. cbn. repeat split; repeat constructor; cbn; lia. Qed.

Lemma enqueue_keeps_order_witness :
  due_sorted (enqueue 5080 (TimerFired "c") pending) /\
  enqueue 5080 (TimerFired "c") pending
  = [(5000%Z, TimerFired "a"); (5080%Z, ReadyStateChange "a" 4);
     (5080%Z, TimerFired "c"); (6000%Z, TimerFired "b")].
Proof.
  destruct (enqueue_keeps_order 5080 (TimerFired "c") pending pending_sorted) as [H _].
  split; [exact H | reflexivity].
Defined.

Lemma step_respects_due_times_witness :
  (now loop_before <= now loop_after)%Z /\
  (5080 <= now loop_after)%Z /\
  due_sorted (queue loop_after) /\
  forall x, x ∈ queue loop_after -> x ∈ [] \/ (now loop_after <= fst x)%Z.
Proof.
  apply (step_respects_due_times (fun _ => 80) chain_a_then_b loop_before loop_after
           5080 (ReadyStateChange "a" 4) []).
  - cbn. split; constructor.
  - reflexivity.
  - reflexivity.
Defined.

Lemma updateRowState_last_state_wins_witness :
  updateRowState (updateRowState (Row "One" "u" "u" ["partsrow"; "success"]) "danger") "none"
  = updateRowState (Row "One" "u" "u" ["partsrow"; "success"]) "none" /\
  ("danger" ∈ row_classes (updateRowState (Row "One" "u" "u" ["partsrow"; "success"]) "danger")
   <-> "danger" = "danger") /\
  ("partsrow" ∈ row_classes (updateRowState (Row "One" "u" "u" ["partsrow"; "success"]) "danger")
   <-> "partsrow" ∈ ["partsrow"; "success"]).
Proof.
  destruct (updateRowState_last_state_wins (Row "One" "u" "u" ["partsrow"; "success"])
              "danger" "none") as (H1 & _ & _).
  destruct (updateRowState_last_state_wins (Row "One" "u" "u" ["partsrow"; "success"])
              "none" "danger") as (_ & H2 & H3).
  split; [exact H1 | split; [apply H2 | apply H3]]; reflexivity.
Defined.

Lemma getRowForPart_finds_first_witness :
  exists r, two_rows !! 1 = Some r /\
            nameFromURL (row_url r) = nameFromURL "https://example.com/about" /\
            forall j r', j < 1 -> two_rows !! j = Some r' ->
                         nameFromURL (row_url r') <> nameFromURL "https://example.com/about".
Proof.
  destruct (getRowForPart_finds_first "https://example.com/about" two_rows) as [H _].
  apply H. reflexivity.
Defined.

Lemma two_rows_distinct : NoDup (row_names two_rows).
Proof.
  apply NoDup_cons. split; [|apply NoDup_singleton].
  intros H. apply list_elem_of_singleton in H. discriminate H.
Qed.

Lemma addOrUpdatePartInList_one_row_per_name_witness :
  NoDup (row_names (addOrUpdatePartInList template_row
                      (Part None "HTTPS://REDD.IT/ABC123" "Chapter one") warm two_rows)) /\
  row_names (addOrUpdatePartInList template_row
               (Part None "HTTPS://REDD.IT/ABC123" "Chapter one") warm two_rows)
  = row_names two_rows.
Proof.
  destruct (addOrUpdatePartInList_one_row_per_name template_row
              (Part None "HTTPS://REDD.IT/ABC123" "Chapter one") warm two_rows
              two_rows_distinct) as (H1 & _ & _).
  split; [exact H1 | reflexivity].
Defined.

Lemma listed_parts_read_back_witness :
  getPartsFromList (fold_left (fun t p => addPartToList template_row p warm t)
                      listed_parts two_rows)
  = getPartsFromList two_rows ++ listed_parts.
Proof.
  apply (listed_parts_read_back template_row warm listed_parts two_rows).
  repeat constructor.
Defined.

End MoreWitnesses.
